(** * Trades: the sequential offer-processing queue of the trading bot

    A shallow embedding of [src/classes/Trades.ts].  The class keeps three
    pieces of mutable state (the reserved asset ids, the queue of received
    offer ids and the processing flag) and mutates them from callbacks of
    asynchronous operations.  Every callback runs to completion on the
    event loop, so the embedding is a labelled transition system: one
    transition per callback, with the pending asynchronous operations
    kept explicitly in the state. *)

From Stdlib Require Import ZArith List Lia Bool.
From stdpp Require Import base decidable option list gmap strings.
From Equations Require Import Equations.
Import ListNotations.

Set Warnings "-clear-no-such-hyp".

Local Open Scope string_scope.
Local Open Scope list_scope.
Local Open Scope Z_scope.

(** ** Data of the Gateway library

    The class is written against the trade-offer manager library, whose
    declarations are not part of the file; what the class uses of them is
    modelled here. *)

(** Modelled from the spec: the enumeration of offer states (section 3),
    [TradeOfferManager.ETradeOfferState] in the source.  The class only
    tests for [Active], [CreatedNeedsConfirmation], [Accepted] and
    [InEscrow]. *)
Inductive ETradeOfferState :=
| Invalid | Active | Accepted | Countered | Expired | Canceled | Declined
| InvalidItems | CreatedNeedsConfirmation | CanceledBySecondFactor | InEscrow.

#[global] Instance ETradeOfferState_eq_dec : EqDecision ETradeOfferState.
Proof. solve_decision. Defined.

(** Modelled from the spec: an item as (namespace id, context id, asset
    id) with an amount, the shape [mapItem] builds. *)
Module TradeOfferItem.
Record t := mk { appid : Z; contextid : string; assetid : string; amount : Z }.
#[global] Instance eq_dec : EqDecision t.
Proof. solve_decision. Defined.
End TradeOfferItem.

(** Modelled from the spec: an item of an offer.  The class reads both
    an [id] and an [assetid] field of it; the Gateway library fills them
    with the same string. *)
Module EconItem.
Record t := mk {
    id : string; assetid : string; appid : Z; contextid : string; amount : Z }.
#[global] Instance eq_dec : EqDecision t.
Proof. solve_decision. Defined.

(** The library's constructor sets [this.assetid = this.id]. *)
Definition wf (item : t) : Prop := id item = assetid item.
End EconItem.

(** Modelled from the spec: an offer (section 3), with the fields and
    the result of [isGlitched()] that the class reads.  The metadata bag
    is kept in the state, see [offerData]. *)
Module TradeOffer.
Record t := mk {
    id : Z;
    state : ETradeOfferState;
    itemsToGive : list EconItem.t;
    isOurOffer : bool;
    isGlitched : bool;
    partner : string }.
#[global] Instance eq_dec : EqDecision t.
Proof. solve_decision. Defined.
End TradeOffer.

(** Modelled from the spec: an error of the Gateway, told apart by its
    message (section 6); a JavaScript [Error] as far as the class looks
    at it. *)
Record Error := mkError { message : string; eresult : option Z }.

#[global] Instance Error_eq_dec : EqDecision Error.
Proof. solve_decision. Defined.

(** Modelled from the spec: the decision of the handler (section 4.6);
    [response.action] is a string. *)
Record Response := mkResponse { action : string }.

#[global] Instance Response_eq_dec : EqDecision Response.
Proof. solve_decision. Defined.

(** Values stored in an offer's metadata bag by [offer.data(key, value)]. *)
Inductive value :=
| VUndefined
| VNull
| VNum (z : Z)
| VBool (b : bool)
| VStr (s : string)
| VItems (items : list TradeOfferItem.t)
| VResponse (r : Response).

#[global] Instance value_eq_dec : EqDecision value.
Proof. solve_decision. Defined.

(** A JavaScript number restricted to the integers and [NaN]: the only
    arithmetic of the module is a difference of timestamps. *)
Inductive number := Num (z : Z) | NaN.

#[global] Instance number_eq_dec : EqDecision number.
Proof. solve_decision. Defined.

(** [ToNumber]: [undefined] becomes [NaN], [null] becomes 0, booleans 0
    or 1.  Strings and objects are sent to [NaN], which is exact for the
    objects and the non-numeric strings; no timestamp key ever holds a
    string. *)
Definition ToNumber (v : value) : number :=
  match v with
  | VNum z => Num z
  | VNull => Num 0
  | VBool b => Num (Z.b2z b)
  | VUndefined | VStr _ | VItems _ | VResponse _ => NaN
  end.

Definition minus (a b : number) : number :=
  match a, b with
  | Num x, Num y => Num (x - y)
  | _, _ => NaN
  end.

Definition isNaN (n : number) : bool :=
  match n with NaN => true | Num _ => false end.

(** ** Arrays *)

Section Arrays.
Context {A : Type} `{EqDecision A}.

(** [Array.prototype.indexOf]: the first index holding [x], or -1. *)
Fixpoint indexOf (x : A) (l : list A) : Z :=
    match l with
    | [] => -1
    | y :: l' =>
        if decide (x = y) then 0
        else let i := indexOf x l' in
             if decide (i = -1) then -1 else 1 + i
    end.

(** [l.splice(index, 1)] for an index within the array. *)
Definition splice1 (index : Z) (l : list A) : list A :=
    take (Z.to_nat index) l ++ drop (S (Z.to_nat index)) l.

(** [l.push(x)]. *)
Definition push (x : A) (l : list A) : list A := l ++ [x].

(** The pattern shared by [dequeueOffer] and [unsetItemInTrade]. *)
Definition removeFirst (x : A) (l : list A) : list A :=
    let index := indexOf x l in
    if decide (index ≠ -1) then splice1 index l else l.
End Arrays.

(** ** Effects and pending operations *)

(** What the duration log line shows: the text unknown or the number. *)
Inductive took := TookUnknown | TookMs (processTime : number).

Inductive log_message :=
| MsgGivingOfferToHandler
| MsgHandlerError (err : Error)
| MsgHandlerDone (response : Response)
| MsgFailedAction (response : Response) (err : Error)
| MsgDoneAction (response : Response)
| MsgHandlingOffer (offerId : Z)
| MsgFailedToGetOffer (offerId : Z) (err : Error)
| MsgAccepted (confirmationRequired : bool)
| MsgAcceptingConfirmation (offerId : Z)
| MsgConfirmationError (err : Error)
| MsgIsGlitched
| MsgReceivedOffer
| MsgSummary (incoming incomingOnHold outgoing outgoingOnHold : nat)
| MsgStateChanged (oldState newState : ETradeOfferState)
| MsgTook (shown : took) (offerId : Z) (state : ETradeOfferState) (finish_time : number).

(** Calls that leave the module, in the order they are made. *)
Inductive effect :=
| Log (level : string) (msg : log_message)
| HandlerOnNewTradeOffer (offer : TradeOffer.t)
| HandlerOnTradeOfferChanged (offer : TradeOffer.t) (oldState : ETradeOfferState)
| FetchOffer (offerId : Z)
| AcceptOfferRetry (offer : TradeOffer.t)
| OfferDecline (offer : TradeOffer.t)
| AcceptConfirmationForObject (offerId : Z)
| InventoryRemoveItem (assetid : string)
| InventoryFetch
| Throw (err : option Error).

(** Asynchronous operations of the processing pipeline whose callback has
    not run yet; the arguments are what the callback's closure captured. *)
Inductive task :=
| FetchingOffer (offerId : Z)
| HandlerDeciding (offer : TradeOffer.t) (start : Z)
| ActingOnOffer (offer : TradeOffer.t) (response : Response) (start : Z).

#[global] Instance task_eq_dec : EqDecision task.
Proof. solve_decision. Defined.

(** Asynchronous operations started outside the pipeline. *)
Inductive background :=
| InventoryFetching (offer : TradeOffer.t) (oldState : ETradeOfferState)
| Confirming (offer : TradeOffer.t) (start : Z).

#[global] Instance background_eq_dec : EqDecision background.
Proof. solve_decision. Defined.

(** ** The state *)

(** The first four fields are the fields of the class.  [pollInterval]
    and [offerData] belong to the manager ([offer.data] reads and writes
    [manager.pollData.offerData[offer.id]], so two offer objects with the
    same id share one bag).  [inFlight] and [detached] are the callbacks
    the event loop still owes, [effects] the calls made so far. *)
Record Trades := mkTrades {
  itemsInTrade : list string;
  receivedOffers : list Z;
  processingOffer : bool;
  pollCount : Z;
  pollInterval : Z;
  offerData : gmap Z (gmap string value);
  inFlight : list task;
  detached : list background;
  effects : list effect }.

Definition initial (interval : Z) : Trades :=
  {| itemsInTrade := []; receivedOffers := []; processingOffer := false;
     pollCount := 0; pollInterval := interval; offerData := ∅;
     inFlight := []; detached := []; effects := [] |}.

Definition set_itemsInTrade (v : list string) (s : Trades) : Trades :=
  mkTrades v (receivedOffers s) (processingOffer s) (pollCount s)
    (pollInterval s) (offerData s) (inFlight s) (detached s) (effects s).

Definition set_receivedOffers (v : list Z) (s : Trades) : Trades :=
  mkTrades (itemsInTrade s) v (processingOffer s) (pollCount s)
    (pollInterval s) (offerData s) (inFlight s) (detached s) (effects s).

Definition set_processingOffer (v : bool) (s : Trades) : Trades :=
  mkTrades (itemsInTrade s) (receivedOffers s) v (pollCount s)
    (pollInterval s) (offerData s) (inFlight s) (detached s) (effects s).

Definition set_pollCount (v : Z) (s : Trades) : Trades :=
  mkTrades (itemsInTrade s) (receivedOffers s) (processingOffer s) v
    (pollInterval s) (offerData s) (inFlight s) (detached s) (effects s).

Definition set_offerData (v : gmap Z (gmap string value)) (s : Trades) : Trades :=
  mkTrades (itemsInTrade s) (receivedOffers s) (processingOffer s) (pollCount s)
    (pollInterval s) v (inFlight s) (detached s) (effects s).

Definition set_inFlight (v : list task) (s : Trades) : Trades :=
  mkTrades (itemsInTrade s) (receivedOffers s) (processingOffer s) (pollCount s)
    (pollInterval s) (offerData s) v (detached s) (effects s).

Definition set_detached (v : list background) (s : Trades) : Trades :=
  mkTrades (itemsInTrade s) (receivedOffers s) (processingOffer s) (pollCount s)
    (pollInterval s) (offerData s) (inFlight s) v (effects s).

Definition emit (e : effect) (s : Trades) : Trades :=
  mkTrades (itemsInTrade s) (receivedOffers s) (processingOffer s) (pollCount s)
    (pollInterval s) (offerData s) (inFlight s) (detached s) (effects s ++ [e]).

Definition await (t : task) (s : Trades) : Trades :=
  set_inFlight (inFlight s ++ [t]) s.

Definition spawn (b : background) (s : Trades) : Trades :=
  set_detached (detached s ++ [b]) s.

(** Modelled from the spec: the per-offer metadata bag (section 3).
    [offer.data(key)]: a missing bag or key reads as [undefined]. *)
Definition data_get (offerId : Z) (key : string) (s : Trades) : value :=
  match offerData s !! offerId with
  | Some bag => default VUndefined (bag !! key)
  | None => VUndefined
  end.

(** Modelled from the spec: [offer.data(key, value)] writes the bag of
    that offer id. *)
Definition data_set (offerId : Z) (key : string) (v : value) (s : Trades) : Trades :=
  set_offerData
    (<[offerId := <[key := v]> (default ∅ (offerData s !! offerId))]> (offerData s)) s.

(** [array.forEach(f)] where [f] mutates the state. *)
Definition forEach {A : Type} (l : list A) (f : A → Trades → Trades) (s : Trades) : Trades :=
  fold_left (λ s x, f x s) l s.

(** ** Item reservation *)

Definition setItemInTrade (assetid : string) (s : Trades) : Trades :=
  let index := indexOf assetid (itemsInTrade s) in
  if decide (index = -1) then set_itemsInTrade (push assetid (itemsInTrade s)) s
  else s.

Definition unsetItemInTrade (assetid : string) (s : Trades) : Trades :=
  let index := indexOf assetid (itemsInTrade s) in
  if decide (index ≠ -1) then set_itemsInTrade (splice1 index (itemsInTrade s)) s
  else s.

(** ** The processing queue *)

Definition dequeueOffer (offerId : Z) (s : Trades) : Trades :=
  let index := indexOf offerId (receivedOffers s) in
  if decide (index ≠ -1) then set_receivedOffers (splice1 index (receivedOffers s)) s
  else s.

(** [now] is the value of [moment().valueOf()] during the callback. *)
Definition handlerProcessOffer (now : Z) (offer : TradeOffer.t) (s : Trades) : Trades :=
  let s := emit (Log "debug" MsgGivingOfferToHandler) s in
  let start := now in
  let s := data_set (TradeOffer.id offer) "handleTimestamp" (VNum start) s in
  let s := emit (HandlerOnNewTradeOffer offer) s in
  await (HandlerDeciding offer start) s.

Definition processNextOffer (s : Trades) : Trades :=
  if processingOffer s || bool_decide (length (receivedOffers s) = 0%nat) then s
  else
    let s := set_processingOffer true s in
    match receivedOffers s with
    | [] => s
    | offerId :: _ =>
        let s := emit (Log "verbose" (MsgHandlingOffer offerId)) s in
        let s := emit (FetchOffer offerId) s in
        await (FetchingOffer offerId) s
    end.

Definition finishProcessingOffer (offerId : Z) (s : Trades) : Trades :=
  let s := dequeueOffer offerId s in
  let s := set_processingOffer false s in
  processNextOffer s.

Definition enqueueOffer (now : Z) (offer : TradeOffer.t) (s : Trades) : Trades :=
  if decide (indexOf (TradeOffer.id offer) (receivedOffers s) = -1) then
    let s := set_receivedOffers (push (TradeOffer.id offer) (receivedOffers s)) s in
    if decide (length (receivedOffers s) = 1%nat) then
      let s := set_processingOffer true s in
      handlerProcessOffer now offer s
    else processNextOffer s
  else s.

(** How the promise of [fetchOffer] settles: rejected with an error, or
    resolved with [null] or with an offer. *)
Inductive fetch_outcome :=
| Rejected (err : Error)
| Resolved (offer : option TradeOffer.t).

(** The callback given to [fetchOffer(offerId).asCallback] in
    [processNextOffer]. *)
Definition fetchOfferCallback (now : Z) (offerId : Z) (r : fetch_outcome) (s : Trades) : Trades :=
  let s :=
    match r with
    | Rejected err =>
        let s := emit (Log "warn" (MsgFailedToGetOffer offerId err)) s in
        if decide (length (receivedOffers s) ≠ 1%nat) then
          set_receivedOffers (push offerId (receivedOffers s)) s
        else s
    | Resolved _ => s
    end in
  match r with
  | Resolved (Some offer) => handlerProcessOffer now offer s
  | Resolved None | Rejected _ => finishProcessingOffer offerId s
  end.

(** ** Actions *)

Definition acceptOffer (now : Z) (offer : TradeOffer.t) (response : Response) (s : Trades) : Trades :=
  let s := data_set (TradeOffer.id offer) "handledByUs" (VBool true) s in
  let start := now in
  let s := data_set (TradeOffer.id offer) "actionTimestamp" (VNum start) s in
  let s := emit (AcceptOfferRetry offer) s in
  await (ActingOnOffer offer response start) s.

Definition declineOffer (now : Z) (offer : TradeOffer.t) (response : Response) (s : Trades) : Trades :=
  let s := data_set (TradeOffer.id offer) "handledByUs" (VBool true) s in
  let start := now in
  let s := data_set (TradeOffer.id offer) "actionTimestamp" (VNum start) s in
  let s := emit (OfferDecline offer) s in
  await (ActingOnOffer offer response start) s.

Definition acceptConfirmation (now : Z) (offer : TradeOffer.t) (s : Trades) : Trades :=
  let s := emit (Log "debug" (MsgAcceptingConfirmation (TradeOffer.id offer))) s in
  let start := now in
  let s := data_set (TradeOffer.id offer) "actedOnConfirmation" (VBool true) s in
  let s := data_set (TradeOffer.id offer) "actedOnConfirmationTimestamp" (VNum start) s in
  let s := emit (AcceptConfirmationForObject (TradeOffer.id offer)) s in
  spawn (Confirming offer start) s.

(** The callback of [acceptConfirmationForObject]. *)
Definition confirmationCallback (now : Z) (offer : TradeOffer.t) (start : Z)
    (err : option Error) (s : Trades) : Trades :=
  let confirmationTime := now - start in
  let s := data_set (TradeOffer.id offer) "confirmationTime" (VNum confirmationTime) s in
  match err with
  | Some e => emit (Log "debug" (MsgConfirmationError e)) s
  | None => s
  end.

(** The callback given to the handler's decision in
    [handlerProcessOffer].  An action that is neither accept nor decline
    leaves [actionFunc] undefined and the call on it throws. *)
Definition decisionCallback (now : Z) (offer : TradeOffer.t) (start : Z)
    (r : Error + Response) (s : Trades) : Trades :=
  match r with
  | inl err =>
      let s := emit (Log "debug" (MsgHandlerError err)) s in
      emit (Throw (Some err)) s
  | inr response =>
      let s := data_set (TradeOffer.id offer) "handleTime" (VNum (now - start)) s in
      let s := emit (Log "debug" (MsgHandlerDone response)) s in
      let s := data_set (TradeOffer.id offer) "action" (VResponse response) s in
      if decide (action response = "accept") then acceptOffer now offer response s
      else if decide (action response = "decline") then declineOffer now offer response s
      else emit (Throw None) s
  end.

(** The callbacks that run when the action settles: first the one inside
    [acceptOffer] or [declineOffer], then the one given to the action in
    [handlerProcessOffer].  [r] is the error or, for accept, the status. *)
Definition actionCallback (now : Z) (offer : TradeOffer.t) (response : Response)
    (start : Z) (r : Error + string) (s : Trades) : Trades :=
  let actionTime := now - start in
  let s := data_set (TradeOffer.id offer) "actionTime" (VNum actionTime) s in
  match r with
  | inl err => emit (Log "warn" (MsgFailedAction response err)) s
  | inr status =>
      let s :=
        if decide (action response = "accept") then
          let s := emit (Log "trade" (MsgAccepted (bool_decide (status = "pending")))) s in
          if decide (status = "pending") then acceptConfirmation now offer s else s
        else s in
      let s := emit (Log "debug" (MsgDoneAction response)) s in
      finishProcessingOffer (TradeOffer.id offer) s
  end.

(** ** Notifications of the Gateway *)

Definition onNewOffer (now : Z) (offer : TradeOffer.t) (s : Trades) : Trades :=
  if TradeOffer.isGlitched offer then emit (Log "debug" MsgIsGlitched) s
  else
    let s := emit (Log "info" MsgReceivedOffer) s in
    let s := forEach (TradeOffer.itemsToGive offer)
               (λ item, setItemInTrade (EconItem.assetid item)) s in
    let s := data_set (TradeOffer.id offer) "partner" (VStr (TradeOffer.partner offer)) s in
    enqueueOffer now offer s.

(** Modelled from the spec: the filter of a poll,
    [TradeOfferManager.EOfferFilter] in the source. *)
Inductive EOfferFilter := ActiveOnly | HistoricalOnly | All.

#[global] Instance EOfferFilter_eq_dec : EqDecision EOfferFilter.
Proof. solve_decision. Defined.

Definition hasState (st : ETradeOfferState) (offer : TradeOffer.t) : bool :=
  bool_decide (TradeOffer.state offer = st).

Definition onOfferList (now : Z) (filter : EOfferFilter) (sent received : list TradeOffer.t)
    (s : Trades) : Trades :=
  let s := set_pollCount (pollCount s + 1) s in
  let activeReceived := List.filter (hasState Active) received in
  let s :=
    if bool_decide (filter = ActiveOnly)
       && bool_decide (2 * 60 * 1000 ≤ pollCount s * pollInterval s) then
      let s := set_pollCount 0 s in
      let activeSent := List.filter (hasState Active) sent in
      let receivedOnHold := length (List.filter (hasState InEscrow) received) in
      let sentOnHold := length (List.filter (hasState InEscrow) sent) in
      emit (Log "verbose" (MsgSummary (length activeReceived) receivedOnHold
                             (length activeSent) sentOnHold)) s
    else s in
  let unhandled :=
    List.filter
      (λ offer, negb (bool_decide
         (data_get (TradeOffer.id offer) "handledByUs" s = VBool true)))
      activeReceived in
  forEach unhandled (enqueueOffer now) s.

Definition mapItem (item : EconItem.t) : TradeOfferItem.t :=
  {| TradeOfferItem.appid := EconItem.appid item;
     TradeOfferItem.contextid := EconItem.contextid item;
     TradeOfferItem.assetid := EconItem.assetid item;
     TradeOfferItem.amount := EconItem.amount item |}.

Definition onOfferChanged (now : Z) (offer : TradeOffer.t) (oldState : ETradeOfferState)
    (s : Trades) : Trades :=
  let id := TradeOffer.id offer in
  let state := TradeOffer.state offer in
  let itemsToGive := TradeOffer.itemsToGive offer in
  let s := emit (Log "verbose" (MsgStateChanged oldState state)) s in
  let s :=
    if decide (state = Active ∨ state = CreatedNeedsConfirmation) then
      let s := forEach itemsToGive (λ item, setItemInTrade (EconItem.id item)) s in
      if TradeOffer.isOurOffer offer && bool_decide (data_get id "_ourItems" s = VNull) then
        data_set id "_ourItems" (VItems (map mapItem itemsToGive)) s
      else s
    else
      let s := forEach itemsToGive (λ item, unsetItemInTrade (EconItem.assetid item)) s in
      let s := data_set id "_ourItems" VUndefined s in
      let finishTimestamp := now in
      let s := data_set id "finishTimestamp" (VNum finishTimestamp) s in
      let processTime :=
        minus (Num finishTimestamp) (ToNumber (data_get id "handleTimeStamp" s)) in
      emit (Log "debug"
              (MsgTook (if isNaN processTime then TookUnknown else TookMs processTime)
                 id state processTime)) s in
  if decide (state ≠ Accepted ∧ state ≠ InEscrow) then
    emit (HandlerOnTradeOfferChanged offer oldState) s
  else
    let s := forEach itemsToGive
               (λ item, emit (InventoryRemoveItem (EconItem.assetid item))) s in
    let s := emit InventoryFetch s in
    spawn (InventoryFetching offer oldState) s.

(** The callback given to the inventory refresh in [onOfferChanged]; it
    runs whether the refresh succeeded or failed. *)
Definition inventoryFetchCallback (offer : TradeOffer.t) (oldState : ETradeOfferState)
    (s : Trades) : Trades :=
  emit (HandlerOnTradeOfferChanged offer oldState) s.

(** ** The transition system *)

(** What the event loop can deliver: a notification of the Gateway, or
    the settling of an operation that is pending. *)
Inductive event :=
| NewOffer (offer : TradeOffer.t)
| OfferList (filter : EOfferFilter) (sent received : list TradeOffer.t)
| OfferChanged (offer : TradeOffer.t) (oldState : ETradeOfferState)
| FetchSettled (offerId : Z) (r : fetch_outcome)
| DecisionSettled (offer : TradeOffer.t) (start : Z) (r : Error + Response)
| ActionSettled (offer : TradeOffer.t) (response : Response) (start : Z) (r : Error + string)
| InventoryFetchSettled (offer : TradeOffer.t) (oldState : ETradeOfferState)
| ConfirmationSettled (offer : TradeOffer.t) (start : Z) (err : option Error).

(** A callback runs once, and only for an operation that was started. *)
Definition settle (t : task) (s : Trades) : option Trades :=
  if decide (t ∈ inFlight s) then Some (set_inFlight (removeFirst t (inFlight s)) s)
  else None.

Definition settle_detached (b : background) (s : Trades) : option Trades :=
  if decide (b ∈ detached s) then Some (set_detached (removeFirst b (detached s)) s)
  else None.

Definition step (now : Z) (e : event) (s : Trades) : option Trades :=
  match e with
  | NewOffer offer => Some (onNewOffer now offer s)
  | OfferList filter sent received => Some (onOfferList now filter sent received s)
  | OfferChanged offer oldState => Some (onOfferChanged now offer oldState s)
  | FetchSettled offerId r =>
      fetchOfferCallback now offerId r <$> settle (FetchingOffer offerId) s
  | DecisionSettled offer start r =>
      decisionCallback now offer start r <$> settle (HandlerDeciding offer start) s
  | ActionSettled offer response start r =>
      actionCallback now offer response start r
        <$> settle (ActingOnOffer offer response start) s
  | InventoryFetchSettled offer oldState =>
      inventoryFetchCallback offer oldState
        <$> settle_detached (InventoryFetching offer oldState) s
  | ConfirmationSettled offer start err =>
      confirmationCallback now offer start err
        <$> settle_detached (Confirming offer start) s
  end.

(** A run: events with the time at which each is delivered. *)
Fixpoint run (evs : list (Z * event)) (s : Trades) : option Trades :=
  match evs with
  | [] => Some s
  | (now, e) :: evs' =>
      match step now e s with
      | Some s' => run evs' s'
      | None => None
      end
  end.

(** The effects a transition added. *)
Definition emitted (s s' : Trades) : list effect :=
  drop (length (effects s)) (effects s').

(** ** The offer fetcher *)

(** Modelled from the spec: the Gateway capability (section 6) as the
    fetcher sees it: the answer to the [k]-th call of [getOffer] (an
    error, or the offer), and the error given to the callback of the
    [j]-th forced refresh of the web session ([None] is [null], a refresh
    that succeeded).  Calls are counted from 0. *)
Record Gateway := mkGateway {
  getOffer : nat → Z → Error + TradeOffer.t;
  getWebSession : nat → option Error }.

(** What the fetcher does, in order. *)
Inductive fetch_event :=
| GetOffer (offerId : Z)
| GetWebSession (force : bool)
| Delay (ms : Z).

#[global] Instance fetch_event_eq_dec : EqDecision fetch_event.
Proof. solve_decision. Defined.

(** [resolve(this.fetchOffer(...))] after the events [evs]. *)
Definition andThen (evs : list fetch_event) (r : fetch_outcome * list fetch_event)
  : fetch_outcome * list fetch_event :=
  (r.1, evs ++ r.2).

Definition isGetOffer (e : fetch_event) : bool :=
  match e with GetOffer _ => true | _ => false end.

(** The number of calls of [getOffer] in a trace. *)
Definition getOfferCalls (t : list fetch_event) : nat :=
  length (List.filter isGetOffer t).

Section Fetcher.

(** [exponentialBackoff] of [lib/helpers], which is not part of the
    file: the delay in milliseconds before the retry that follows the
    given number of attempts. *)
Variable exponentialBackoff : nat → Z.

(** [fetchOffer(offerId, attempts)]; [k] and [j] count the calls of
    [getOffer] and of [getWebSession] made before. *)
Equations? fetchOffer (gw : Gateway) (offerId : Z) (attempts : nat) (k j : nat)
  : fetch_outcome * list fetch_event by wf (6 - attempts)%nat lt :=
fetchOffer gw offerId attempts k j with getOffer gw k offerId := {
  | inr offer =>
      if decide (TradeOffer.state offer ≠ Active) then (Resolved None, [GetOffer offerId])
      else (Resolved (Some offer), [GetOffer offerId]);
  | inl err with decide (message err = "NoMatch" ∨ message err = "No matching offer found") := {
    | left _ => (Resolved None, [GetOffer offerId]);
    | right _ with decide (5 < S attempts)%nat := {
      | left _ => (Rejected err, [GetOffer offerId]);
      | right _ with decide (message err ≠ "Not Logged In") := {
        | left _ =>
            andThen [GetOffer offerId; Delay (exponentialBackoff (S attempts))]
              (fetchOffer gw offerId (S attempts) (S k) j);
        | right _ =>
            andThen [GetOffer offerId; GetWebSession true;
                     Delay (if decide (getWebSession gw j ≠ None) then 0
                            else exponentialBackoff (S attempts))]
              (fetchOffer gw offerId (S attempts) (S k) (S j)) } } } }.
Proof. all: lia. Qed.

End Fetcher.

(** An error of the Gateway that is neither not-found nor session-expired. *)
Definition transient (err : Error) : Prop :=
  message err ≠ "NoMatch" ∧ message err ≠ "No matching offer found"
  ∧ message err ≠ "Not Logged In".

(** ** Invariants and vocabulary of the statements *)

(** The active family of offer states. *)
Definition activeFamily (st : ETradeOfferState) : Prop :=
  st = Active ∨ st = CreatedNeedsConfirmation.

(** What holds between any two callbacks: no id is queued twice, at most
    one operation of the pipeline is pending, while one is pending the
    processing flag is set and the queue is not empty, and a pending
    fetch is for the id at the front of the queue. *)
Definition consistent (s : Trades) : Prop :=
  NoDup (receivedOffers s)
  ∧ (length (inFlight s) ≤ 1)%nat
  ∧ (inFlight s ≠ [] → processingOffer s = true ∧ receivedOffers s ≠ [])
  ∧ (∀ offerId, FetchingOffer offerId ∈ inFlight s →
       head (receivedOffers s) = Some offerId).

(** The same offer reported in another state. *)
Definition inState (st : ETradeOfferState) (offer : TradeOffer.t) : TradeOffer.t :=
  {| TradeOffer.id := TradeOffer.id offer;
     TradeOffer.state := st;
     TradeOffer.itemsToGive := TradeOffer.itemsToGive offer;
     TradeOffer.isOurOffer := TradeOffer.isOurOffer offer;
     TradeOffer.isGlitched := TradeOffer.isGlitched offer;
     TradeOffer.partner := TradeOffer.partner offer |}.

(** A series of state-change notifications for one offer: each entry is
    the time, the new state and the old state. *)
Definition notify (offer : TradeOffer.t)
    (changes : list (Z * ETradeOfferState * ETradeOfferState)) (s : Trades) : Trades :=
  forEach changes (λ '(now, newState, oldState),
    onOfferChanged now (inState newState offer) oldState) s.

(** The fields of the processing queue. *)
Definition pipeline (s : Trades) : list Z * bool * list task :=
  (receivedOffers s, processingOffer s, inFlight s).

(** [s'] continues [s] with effects that all satisfy [P]. *)
Definition emits (P : effect → Prop) (s s' : Trades) : Prop :=
  ∃ l, effects s' = effects s ++ l ∧ Forall P l.

(** An effect other than a notification of the handler about a
    transition. *)
Definition quiet (e : effect) : Prop :=
  match e with HandlerOnTradeOfferChanged _ _ => False | _ => True end.

(** An effect that is not the notification of the handler about a
    transition to [Accepted] or [InEscrow]. *)
Definition notTradeDone (e : effect) : Prop :=
  ∀ offer oldState, e = HandlerOnTradeOfferChanged offer oldState →
    TradeOffer.state offer ≠ Accepted ∧ TradeOffer.state offer ≠ InEscrow.

(** How often an asset id occurs in the reservation array. *)
Definition reservations (assetid : string) (s : Trades) : nat :=
  length (List.filter (λ x, bool_decide (x = assetid)) (itemsInTrade s)).

(** ** Example data *)

Definition itemA : EconItem.t := EconItem.mk "a1" "a1" 440 "2" 1.

Definition offer1 : TradeOffer.t := TradeOffer.mk 1 Active [itemA] false false "p1".
Definition offer2 : TradeOffer.t := TradeOffer.mk 2 Active [] false false "p2".
Definition offer3 : TradeOffer.t := TradeOffer.mk 3 Active [] false false "p3".

Definition sayAccept : Response := mkResponse "accept".
Definition timeout : Error := mkError "ETIMEDOUT" None.
Definition notLoggedIn : Error := mkError "Not Logged In" None.

(** Offer 1 arrives and is decided and accepted while offers 2 and 3
    arrive; when it is finished the queue is [2; 3] and offer 2 is being
    fetched. *)
Definition twoWaiting : list (Z * event) :=
  [ (0, NewOffer offer1); (1, NewOffer offer2); (2, NewOffer offer3);
    (3, DecisionSettled offer1 0 (inr sayAccept));
    (4, ActionSettled offer1 sayAccept 3 (inr "accepted")) ].

(** Offer 1 arrives and is finished while offer 2 waits; then the queue
    is [2] and offer 2 is being fetched. *)
Definition oneWaiting : list (Z * event) :=
  [ (0, NewOffer offer1); (1, NewOffer offer2);
    (3, DecisionSettled offer1 0 (inr sayAccept));
    (4, ActionSettled offer1 sayAccept 3 (inr "accepted")) ].

(** A Gateway that fails [n] times with a timeout and then returns
    offer 1; every refresh of the session succeeds. *)
Definition failsThenSucceeds (n : nat) : Gateway :=
  {| getOffer := λ k _, if (k <? n)%nat then inl timeout else inr offer1;
     getWebSession := λ _, None |}.

(** A Gateway whose session has expired at the first call; the refresh
    settles with the error [refresh]. *)
Definition sessionExpiredOnce (refresh : option Error) : Gateway :=
  {| getOffer := λ k _, if (k <? 1)%nat then inl notLoggedIn else inr offer1;
     getWebSession := λ _, refresh |}.

Definition doubling (attempts : nat) : Z := 1000 * 2 ^ Z.of_nat attempts.

(** The state at the end of [twoWaiting] and of [oneWaiting]. *)
Definition afterTwoWaiting : Trades :=
  default (initial 30000) (run twoWaiting (initial 30000)).

Definition afterOneWaiting : Trades :=
  default (initial 30000) (run oneWaiting (initial 30000)).

(** The fetch of the front id then exhausts its retries. *)
Definition fetchFailedOfTwo : Trades :=
  fetchOfferCallback 9 2 (Rejected timeout) (set_inFlight [] afterTwoWaiting).

Definition fetchFailedOfOne : Trades :=
  fetchOfferCallback 9 2 (Rejected timeout) (set_inFlight [] afterOneWaiting).

(** What [onOfferChanged] reads as the start of the handling. *)
Definition handleTimeStamp (offerId : Z) (s : Trades) : value :=
  data_get offerId "handleTimeStamp" s.

(** What [handlerProcessOffer] writes as the start of the handling. *)
Definition handleTimestamp (offerId : Z) (s : Trades) : value :=
  data_get offerId "handleTimestamp" s.

(** An item whose two identifiers differ, which the Gateway library
    never builds, and an offer that gives it. *)
Definition itemMismatched : EconItem.t := EconItem.mk "x1" "a9" 440 "2" 1.

Definition offerMismatched : TradeOffer.t :=
  TradeOffer.mk 4 Active [itemMismatched] false false "p4".

(** ** Accepting with retries *)

(** Modelled from the spec: the Gateway capability (section 6) as
    [acceptOfferRetry] sees it: the answer to the [k]-th call of
    [offer.accept] (an error, or the status), and the error given to the
    callback of the [j]-th forced refresh of the web session. *)
Record Acceptor := mkAcceptor {
  offerAccept : nat → Z → Error + string;
  sessionRefresh : nat → option Error }.

Inductive accept_outcome :=
| AcceptRejected (err : Error)
| AcceptResolved (status : string).

Inductive accept_event :=
| OfferAccept (offerId : Z)
| RefreshSession (force : bool)
| Wait (ms : Z).

#[global] Instance accept_event_eq_dec : EqDecision accept_event.
Proof. solve_decision. Defined.

(** [resolve(this.acceptOfferRetry(...))] after the events [evs]. *)
Definition thenAccept (evs : list accept_event) (r : accept_outcome * list accept_event)
  : accept_outcome * list accept_event :=
  (r.1, evs ++ r.2).

Definition isOfferAccept (e : accept_event) : bool :=
  match e with OfferAccept _ => true | _ => false end.

(** The number of calls of [offer.accept] in a trace. *)
Definition acceptCalls (t : list accept_event) : nat :=
  length (List.filter isOfferAccept t).

Section Accepting.

(** [exponentialBackoff] of [lib/helpers], as for the fetcher. *)
Variable exponentialBackoff : nat → Z.

(** [acceptOfferRetry(offer, attempts)]; [k] and [j] count the calls of
    [offer.accept] and of [getWebSession] made before. *)
Equations? acceptOfferRetry (gw : Acceptor) (offer : TradeOffer.t) (attempts : nat)
    (k j : nat) : accept_outcome * list accept_event by wf (6 - attempts)%nat lt :=
acceptOfferRetry gw offer attempts k j with offerAccept gw k (TradeOffer.id offer) := {
  | inr status => (AcceptResolved status, [OfferAccept (TradeOffer.id offer)]);
  | inl err with decide (eresult err ≠ None ∨ (5 < S attempts)%nat) := {
    | left _ => (AcceptRejected err, [OfferAccept (TradeOffer.id offer)]);
    | right _ with decide (message err ≠ "Not Logged In") := {
      | left _ =>
          thenAccept [OfferAccept (TradeOffer.id offer);
                      Wait (exponentialBackoff (S attempts))]
            (acceptOfferRetry gw offer (S attempts) (S k) j);
      | right _ =>
          thenAccept [OfferAccept (TradeOffer.id offer); RefreshSession true;
                      Wait (if decide (sessionRefresh gw j ≠ None) then 0
                            else exponentialBackoff (S attempts))]
            (acceptOfferRetry gw offer (S attempts) (S k) (S j)) } } }.
Proof. all: lia. Qed.

End Accepting.

(** An error of [offer.accept] that is retried: it carries no result code
    of the protocol and is not a session error. *)
Definition retried (err : Error) : Prop :=
  eresult err = None ∧ message err ≠ "Not Logged In".

(** ** Poll data *)

(** Modelled from the spec: a snapshot of the poll (section 4.2).  [sent]
    and [received] list the offer ids with their states, in the order in
    which [for ... in] visits the keys (the keys of an object are
    distinct); [offerData] is the table of metadata bags, [None] when the
    property is [undefined]. *)
Module PollData.
Record t := mk {
  sent : list (Z * ETradeOfferState);
  received : list (Z * ETradeOfferState);
  offerData : option (gmap Z (gmap string value)) }.
End PollData.

(** [offerData.items || []], read as an array of items.  A bag that holds
    something else than an array under that key gives no item (exact
    except for a non-empty string, which the class never stores). *)
Definition itemsOf (bag : gmap string value) : list TradeOfferItem.t :=
  match bag !! "items" with
  | Some (VItems items) => items
  | _ => []
  end.

(** [pollData.offerData === undefined ? {} : (pollData.offerData[id] || {})]. *)
Definition bagOf (pollData : PollData.t) (id : Z) : gmap string value :=
  match PollData.offerData pollData with
  | None => ∅
  | Some table => default ∅ (table !! id)
  end.

(** The ids [setPollData] collects: the sent offers that are active or
    need confirmation, then the received offers that are active. *)
Definition activeOrCreatedNeedsConfirmation (pollData : PollData.t) : list Z :=
  map fst
    (List.filter
       (λ p, bool_decide (p.2 = Active ∨ p.2 = CreatedNeedsConfirmation))
       (PollData.sent pollData))
  ++ map fst
       (List.filter (λ p, bool_decide (p.2 = Active)) (PollData.received pollData)).

(** [setPollData]; storing the snapshot in the manager replaces the table
    of metadata bags, the only part of it the class reads back. *)
Definition setPollData (pollData : PollData.t) (s : Trades) : Trades :=
  let s :=
    forEach (activeOrCreatedNeedsConfirmation pollData)
      (λ id s,
         let offerData := bagOf pollData id in
         let items := itemsOf offerData in
         forEach items (λ item, setItemInTrade (TradeOfferItem.assetid item)) s) s in
  set_offerData (default ∅ (PollData.offerData pollData)) s.

(** The asset ids a snapshot asks to reserve. *)
Definition polledAssets (pollData : PollData.t) : list string :=
  flat_map (λ id, map TradeOfferItem.assetid (itemsOf (bagOf pollData id)))
    (activeOrCreatedNeedsConfirmation pollData).

(** ** More vocabulary of the statements *)

(** The pipeline is stalled: the flag is set and no callback is owed that
    would clear it. *)
Definition stalled (s : Trades) : Prop :=
  processingOffer s = true ∧ inFlight s = [].

(** The class marked the offer as handled. *)
Definition handled (offerId : Z) (s : Trades) : Prop :=
  data_get offerId "handledByUs" s = VBool true.

(** The received offers a sweep enqueues. *)
Definition swept (received : list TradeOffer.t) (s : Trades) : list TradeOffer.t :=
  List.filter
    (λ offer, hasState Active offer
              && negb (bool_decide (data_get (TradeOffer.id offer) "handledByUs" s
                                    = VBool true)))
    received.

(** An event that is a notification of a new offer or of a state change. *)
Definition touchesReservations (e : event) : Prop :=
  match e with NewOffer _ | OfferChanged _ _ => True | _ => False end.

(** ** More example data *)

Definition rejectedByProtocol : Error := mkError "Error 16" (Some 16).

(** An acceptor that fails [n] times with a timeout and then accepts. *)
Definition acceptsAfter (n : nat) : Acceptor :=
  {| offerAccept := λ k _, if (k <? n)%nat then inl timeout else inr "accepted";
     sessionRefresh := λ _, None |}.

(** An acceptor the protocol turns down at the first call. *)
Definition turnedDown : Acceptor :=
  {| offerAccept := λ _ _, inl rejectedByProtocol; sessionRefresh := λ _, None |}.

(** A Gateway that fails [n] times with a timeout and then reports that
    the offer does not exist. *)
Definition failsThenVanishes (n : nat) : Gateway :=
  {| getOffer := λ k _, if (k <? n)%nat then inl timeout
                        else inl (mkError "NoMatch" None);
     getWebSession := λ _, None |}.

Definition itemB : TradeOfferItem.t := TradeOfferItem.mk 440 "2" "b7" 1.
Definition itemC : TradeOfferItem.t := TradeOfferItem.mk 440 "2" "c3" 1.

(** A snapshot with one sent offer that needs confirmation and gives
    [itemB], one received offer that was declined and gave [itemC], and
    one active received offer without recorded items. *)
Definition snapshot : PollData.t :=
  {| PollData.sent := [(11, CreatedNeedsConfirmation)];
     PollData.received := [(12, Declined); (13, Active)];
     PollData.offerData :=
       Some {[ 11 := {[ "items" := VItems [itemB] ]};
               12 := {[ "items" := VItems [itemC] ]} ]} |}.

(** Offer 1 is being decided when the handler fails. *)
Definition handlerFails : list (Z * event) :=
  [ (0, NewOffer offer1); (1, NewOffer offer2);
    (3, DecisionSettled offer1 0 (inl timeout)) ].

Definition afterHandlerFails : Trades :=
  default (initial 30000) (run handlerFails (initial 30000)).

(** Offer 1 is accepted with status pending, so its confirmation is
    started, and the queue goes on with offer 2. *)
Definition acceptedPending : list (Z * event) :=
  [ (0, NewOffer offer1); (1, NewOffer offer2);
    (3, DecisionSettled offer1 0 (inr sayAccept));
    (4, ActionSettled offer1 sayAccept 3 (inr "pending")) ].

Definition afterAcceptedPending : Trades :=
  default (initial 30000) (run acceptedPending (initial 30000)).

(** An acceptor whose session has expired at the first call; the
    refresh settles with the error [refresh]. *)
Definition expiredThenAccepts (refresh : option Error) : Acceptor :=
  {| offerAccept := λ k _, if (k <? 1)%nat then inl notLoggedIn else inr "accepted";
     sessionRefresh := λ _, refresh |}.

(** Offer 1 is decided and its accept is pending while offer 2 waits. *)
Definition acceptPending : list (Z * event) :=
  [ (0, NewOffer offer1); (1, NewOffer offer2);
    (3, DecisionSettled offer1 0 (inr sayAccept)) ].

Definition whileAccepting : Trades :=
  default (initial 30000) (run acceptPending (initial 30000)).

(** The accept then fails. *)
Definition acceptFailed : Trades :=
  actionCallback 4 offer1 sayAccept 3 (inl timeout) (set_inFlight [] whileAccepting).

(** The accept then settles with status pending. *)
Definition acceptSettledPending : Trades :=
  actionCallback 4 offer1 sayAccept 3 (inr "pending") (set_inFlight [] whileAccepting).

(** What arrives after the accept failed. *)
Definition afterStall : list (Z * event) :=
  [ (9, NewOffer offer3); (10, OfferChanged offer3 Invalid) ].

Definition stalledLater : Trades := default acceptFailed (run afterStall acceptFailed).

(** Offers 1 and 2 have arrived and the decision on offer 1 is pending. *)
Definition whileDeciding : Trades :=
  default (initial 30000) (run [(0, NewOffer offer1); (1, NewOffer offer2)] (initial 30000)).

(** The accept of offer 1 settles with status accepted. *)
Definition acceptSettles : list (Z * event) :=
  [ (4, ActionSettled offer1 sayAccept 3 (inr "accepted")) ].

Definition acceptDone : Trades :=
  default whileAccepting (run acceptSettles whileAccepting).

(** The confirmation started by [acceptSettledPending] fails. *)
Definition confirmationFailed : Trades :=
  confirmationCallback 8 offer1 4 (Some timeout)
    (set_detached [] acceptSettledPending).

(** * Properties *)

(** ** Arrays *)

Section ArrayFacts.
Context {A : Type} {eqA : EqDecision A}.
Implicit Types (x y : A) (l : list A).

Lemma indexOf_ge x l : -1 ≤ indexOf x l.
Proof. induction l as [|y l IH]; simpl; repeat case_decide; lia. Qed.

Lemma indexOf_absent x l : indexOf x l = -1 ↔ x ∉ l.
Proof.
  induction l as [|y l IH]; simpl.
  - split; [intros _; apply not_elem_of_nil | done].
  - pose proof (indexOf_ge x l). rewrite not_elem_of_cons.
    repeat case_decide; split; try lia; try tauto; intros [? ?]; tauto.
Qed.

Lemma removeFirst_nil x : removeFirst x [] = [].
Proof. done. Qed.

Lemma removeFirst_head x l : removeFirst x (x :: l) = l.
Proof.
  unfold removeFirst; simpl. destruct (decide (x = x)) as [_|?]; [|done].
  rewrite decide_True by done. unfold splice1; simpl. by rewrite drop_0.
Qed.

Lemma removeFirst_tail x y l : x ≠ y → removeFirst x (y :: l) = y :: removeFirst x l.
Proof.
  intros Hne. unfold removeFirst; simpl.
  destruct (decide (x = y)) as [?|_]; [done|].
  pose proof (indexOf_ge x l).
  destruct (decide (indexOf x l = -1)) as [Heq|Hn].
  - rewrite decide_False by lia. rewrite decide_False by lia. done.
  - rewrite decide_True by lia. rewrite decide_True by lia.
    unfold splice1. replace (Z.to_nat (1 + indexOf x l)) with (S (Z.to_nat (indexOf x l))) by lia.
    done.
Qed.

Lemma removeFirst_absent x l : x ∉ l → removeFirst x l = l.
Proof.
  intros Hx. apply indexOf_absent in Hx. unfold removeFirst.
  by rewrite decide_False by lia.
Qed.

Lemma removeFirst_subset x y l : y ∈ removeFirst x l → y ∈ l.
Proof.
  induction l as [|z l IH]; [done|].
  destruct (decide (x = z)) as [->|Hne].
  - rewrite removeFirst_head. set_solver.
  - rewrite removeFirst_tail by done. set_solver.
Qed.

Lemma removeFirst_other x y l : x ≠ y → y ∈ l → y ∈ removeFirst x l.
Proof.
  intros Hxy. induction l as [|z l IH]; [done|].
  destruct (decide (x = z)) as [->|Hne].
  - rewrite removeFirst_head. set_solver.
  - rewrite removeFirst_tail by done. set_solver.
Qed.

Lemma removeFirst_NoDup x l : NoDup l → NoDup (removeFirst x l).
Proof.
  induction 1 as [|z l Hz Hl IH]; [constructor|].
  destruct (decide (x = z)) as [->|Hne].
  - by rewrite removeFirst_head.
  - rewrite removeFirst_tail by done. constructor; [|done].
    intros Hin. by apply removeFirst_subset in Hin.
Qed.

Lemma removeFirst_gone x l : NoDup l → x ∉ removeFirst x l.
Proof.
  induction 1 as [|z l Hz Hl IH]; [apply not_elem_of_nil|].
  destruct (decide (x = z)) as [->|Hne].
  - by rewrite removeFirst_head.
  - rewrite removeFirst_tail by done. set_solver.
Qed.

Lemma removeFirst_push x l : x ∈ l → removeFirst x (push x l) = push x (removeFirst x l).
Proof.
  unfold push. induction l as [|z l IH]; [by intros ?%elem_of_nil|].
  intros Hin. destruct (decide (x = z)) as [->|Hne]; simpl.
  - by rewrite !removeFirst_head.
  - rewrite !removeFirst_tail by done. simpl. f_equal. apply IH. set_solver.
Qed.

Lemma removeFirst_push_fresh x l : x ∉ l → removeFirst x (push x l) = l.
Proof.
  unfold push. induction l as [|z l IH]; intros Hx; simpl.
  - by rewrite removeFirst_head.
  - rewrite removeFirst_tail by set_solver. f_equal. apply IH. set_solver.
Qed.

Lemma removeFirst_push_NoDup x l : NoDup l → NoDup (removeFirst x (push x l)).
Proof.
  intros Hl. destruct (decide (x ∈ l)) as [Hin|Hout].
  - rewrite removeFirst_push by done. unfold push.
    apply NoDup_app. split; [by apply removeFirst_NoDup|]. split; [|apply NoDup_singleton].
    intros y Hy Hx%list_elem_of_singleton; subst y. by apply (removeFirst_gone x l).
  - by rewrite removeFirst_push_fresh.
Qed.

Lemma removeFirst_only x l : (length l ≤ 1)%nat → x ∈ l → removeFirst x l = [].
Proof.
  destruct l as [|y [|z l]]; simpl; intros Hlen Hin; [by apply elem_of_nil in Hin| |lia].
  apply list_elem_of_singleton in Hin as ->. apply removeFirst_head.
Qed.

End ArrayFacts.

(** ** Frame properties *)

Lemma pipeline_consistent s s' : pipeline s = pipeline s' → consistent s → consistent s'.
Proof.
  unfold pipeline, consistent. intros [= Hq Hp Hf]. by rewrite Hq, Hp, Hf.
Qed.

Lemma forEach_cons {A} (x : A) l f s : forEach (x :: l) f s = forEach l f (f x s).
Proof. done. Qed.

Lemma forEach_app {A} (l1 l2 : list A) f s :
  forEach (l1 ++ l2) f s = forEach l2 f (forEach l1 f s).
Proof. unfold forEach. apply fold_left_app. Qed.

Lemma forEach_preserves {A B} (proj : Trades → B) (l : list A) f s :
  (∀ x s, proj (f x s) = proj s) → proj (forEach l f s) = proj s.
Proof.
  intros Hf. revert s. induction l as [|x l IH]; intros s; [done|].
  rewrite forEach_cons, IH. apply Hf.
Qed.

Lemma forEach_invariant {A} (Inv : Trades → Prop) (l : list A) f s :
  (∀ x s, Inv s → Inv (f x s)) → Inv s → Inv (forEach l f s).
Proof.
  intros Hf. revert s. induction l as [|x l IH]; intros s Hs; [done|].
  rewrite forEach_cons. apply IH, Hf, Hs.
Qed.

Lemma setItemInTrade_items a s :
  itemsInTrade (setItemInTrade a s)
  = if decide (a ∈ itemsInTrade s) then itemsInTrade s else push a (itemsInTrade s).
Proof.
  unfold setItemInTrade. cbv zeta.
  destruct (decide (indexOf a (itemsInTrade s) = -1)) as [Hi|Hi];
    rewrite indexOf_absent in Hi.
  - by rewrite decide_False.
  - rewrite decide_True; [done|]. by destruct (decide (a ∈ itemsInTrade s)).
Qed.

Lemma unsetItemInTrade_items a s :
  itemsInTrade (unsetItemInTrade a s) = removeFirst a (itemsInTrade s).
Proof. unfold unsetItemInTrade, removeFirst. cbv zeta. by case_decide. Qed.

Lemma dequeueOffer_queue offerId s :
  receivedOffers (dequeueOffer offerId s) = removeFirst offerId (receivedOffers s).
Proof. unfold dequeueOffer, removeFirst. cbv zeta. by case_decide. Qed.

Lemma setItemInTrade_frame a s :
  pipeline (setItemInTrade a s) = pipeline s
  ∧ effects (setItemInTrade a s) = effects s
  ∧ detached (setItemInTrade a s) = detached s
  ∧ offerData (setItemInTrade a s) = offerData s.
Proof. unfold setItemInTrade. cbv zeta. by case_decide. Qed.

Lemma unsetItemInTrade_frame a s :
  pipeline (unsetItemInTrade a s) = pipeline s
  ∧ effects (unsetItemInTrade a s) = effects s
  ∧ detached (unsetItemInTrade a s) = detached s
  ∧ offerData (unsetItemInTrade a s) = offerData s.
Proof. unfold unsetItemInTrade. cbv zeta. by case_decide. Qed.

Lemma dequeueOffer_frame offerId s :
  processingOffer (dequeueOffer offerId s) = processingOffer s
  ∧ inFlight (dequeueOffer offerId s) = inFlight s
  ∧ effects (dequeueOffer offerId s) = effects s
  ∧ itemsInTrade (dequeueOffer offerId s) = itemsInTrade s.
Proof. unfold dequeueOffer. cbv zeta. by case_decide. Qed.

Lemma reserve_all_frame {A} (l : list A) (f : A → string) s :
  pipeline (forEach l (λ x, setItemInTrade (f x)) s) = pipeline s
  ∧ effects (forEach l (λ x, setItemInTrade (f x)) s) = effects s
  ∧ detached (forEach l (λ x, setItemInTrade (f x)) s) = detached s
  ∧ offerData (forEach l (λ x, setItemInTrade (f x)) s) = offerData s.
Proof.
  repeat split; apply forEach_preserves; intros; apply setItemInTrade_frame.
Qed.

Lemma release_all_frame {A} (l : list A) (f : A → string) s :
  pipeline (forEach l (λ x, unsetItemInTrade (f x)) s) = pipeline s
  ∧ effects (forEach l (λ x, unsetItemInTrade (f x)) s) = effects s
  ∧ detached (forEach l (λ x, unsetItemInTrade (f x)) s) = detached s
  ∧ offerData (forEach l (λ x, unsetItemInTrade (f x)) s) = offerData s.
Proof.
  repeat split; apply forEach_preserves; intros; apply unsetItemInTrade_frame.
Qed.

Lemma remove_all_effects {A} (l : list A) (f : A → string) s :
  effects (forEach l (λ x, emit (InventoryRemoveItem (f x))) s)
  = effects s ++ map (λ x, InventoryRemoveItem (f x)) l.
Proof.
  revert s. induction l as [|x l IH]; intros s.
  - simpl. by rewrite app_nil_r.
  - rewrite forEach_cons, IH. simpl. by rewrite <- app_assoc.
Qed.

Lemma remove_all_frame {A} (l : list A) (f : A → string) s :
  pipeline (forEach l (λ x, emit (InventoryRemoveItem (f x))) s) = pipeline s
  ∧ detached (forEach l (λ x, emit (InventoryRemoveItem (f x))) s) = detached s
  ∧ itemsInTrade (forEach l (λ x, emit (InventoryRemoveItem (f x))) s) = itemsInTrade s.
Proof. repeat split; by apply forEach_preserves. Qed.

(** ** The processing queue keeps its invariant *)

Lemma consistent_initial interval : consistent (initial interval).
Proof.
  repeat split; simpl; try done; [constructor | lia | by intros ? ?%elem_of_nil].
Qed.

Lemma consistent_idle s :
  NoDup (receivedOffers s) → inFlight s = [] → consistent s.
Proof.
  intros Hq Hf. unfold consistent. rewrite Hf. repeat split; simpl; try done; [lia|].
  by intros ? ?%elem_of_nil.
Qed.

Lemma consistent_one s t :
  NoDup (receivedOffers s) → inFlight s = [t] → processingOffer s = true →
  receivedOffers s ≠ [] →
  (∀ offerId, t = FetchingOffer offerId → head (receivedOffers s) = Some offerId) →
  consistent s.
Proof.
  intros Hq Hf Hp Hne Hhd. unfold consistent. rewrite Hf.
  repeat split; simpl; try done.
  intros offerId Hin%list_elem_of_singleton. by apply Hhd.
Qed.

Lemma consistent_not_processing s :
  consistent s → processingOffer s = false → inFlight s = [].
Proof.
  intros (_ & _ & Hfl & _) Hp. destruct (inFlight s) as [|t l]; [done|].
  destruct Hfl as [Hp' _]; [done|congruence].
Qed.

Lemma consistent_empty s : consistent s → receivedOffers s = [] → inFlight s = [].
Proof.
  intros (_ & _ & Hfl & _) Hq. destruct (inFlight s) as [|t l]; [done|].
  destruct Hfl as [_ Hne]; done.
Qed.

Lemma processNextOffer_idle s :
  processingOffer s = true ∨ receivedOffers s = [] → processNextOffer s = s.
Proof.
  unfold processNextOffer. intros [-> | ->]; [done|]. simpl. by rewrite orb_true_r.
Qed.

Lemma processNextOffer_starts s offerId rest :
  processingOffer s = false → receivedOffers s = offerId :: rest →
  processNextOffer s
  = await (FetchingOffer offerId)
      (emit (FetchOffer offerId)
         (emit (Log "verbose" (MsgHandlingOffer offerId)) (set_processingOffer true s))).
Proof.
  unfold processNextOffer. intros -> Hq. simpl. by rewrite Hq.
Qed.

Lemma processNextOffer_consistent s : consistent s → consistent (processNextOffer s).
Proof.
  intros Hs. destruct (processingOffer s) eqn:Hp.
  { by rewrite processNextOffer_idle by auto. }
  destruct (receivedOffers s) as [|offerId rest] eqn:Hq.
  { by rewrite processNextOffer_idle by auto. }
  rewrite (processNextOffer_starts s offerId rest) by done.
  apply (consistent_one _ (FetchingOffer offerId)); simpl.
  - rewrite Hq. destruct Hs as [Hnd _]. by rewrite Hq in Hnd.
  - by rewrite (consistent_not_processing s).
  - done.
  - by rewrite Hq.
  - intros ? [= <-]. by rewrite Hq.
Qed.

Lemma finishProcessingOffer_consistent offerId s :
  NoDup (removeFirst offerId (receivedOffers s)) → inFlight s = [] →
  consistent (finishProcessingOffer offerId s).
Proof.
  intros Hq Hf. unfold finishProcessingOffer. apply processNextOffer_consistent.
  apply consistent_idle; simpl.
  - by rewrite dequeueOffer_queue.
  - destruct (dequeueOffer_frame offerId s) as (_ & -> & _). done.
Qed.

Lemma handlerProcessOffer_consistent now offer s :
  NoDup (receivedOffers s) → inFlight s = [] → processingOffer s = true →
  receivedOffers s ≠ [] → consistent (handlerProcessOffer now offer s).
Proof.
  intros Hq Hf Hp Hne.
  apply (consistent_one _ (HandlerDeciding offer now)); simpl; try done.
  by rewrite Hf.
Qed.

Lemma enqueueOffer_present now offer s :
  TradeOffer.id offer ∈ receivedOffers s → enqueueOffer now offer s = s.
Proof.
  intros Hin. unfold enqueueOffer. rewrite decide_False; [done|].
  rewrite indexOf_absent. tauto.
Qed.

Lemma enqueueOffer_first now offer s :
  receivedOffers s = [] →
  enqueueOffer now offer s
  = handlerProcessOffer now offer
      (set_processingOffer true (set_receivedOffers [TradeOffer.id offer] s)).
Proof.
  intros Hq. unfold enqueueOffer. rewrite Hq. simpl. done.
Qed.

Lemma enqueueOffer_later now offer s :
  TradeOffer.id offer ∉ receivedOffers s → receivedOffers s ≠ [] →
  enqueueOffer now offer s
  = processNextOffer
      (set_receivedOffers (push (TradeOffer.id offer) (receivedOffers s)) s).
Proof.
  intros Hout Hne. unfold enqueueOffer. rewrite decide_True by by rewrite indexOf_absent.
  cbv zeta. rewrite decide_False; [done|]. simpl. unfold push. rewrite length_app. simpl.
  destruct (receivedOffers s); [done|simpl; lia].
Qed.

Lemma enqueueOffer_consistent now offer s :
  consistent s → consistent (enqueueOffer now offer s).
Proof.
  intros Hs. destruct (decide (TradeOffer.id offer ∈ receivedOffers s)) as [Hin|Hout].
  { by rewrite enqueueOffer_present. }
  destruct (receivedOffers s) as [|x q] eqn:Hq.
  - rewrite enqueueOffer_first by done.
    apply handlerProcessOffer_consistent; simpl; try done.
    + apply NoDup_singleton.
    + by apply consistent_empty.
  - rewrite enqueueOffer_later by (by rewrite Hq).
    apply processNextOffer_consistent.
    destruct Hs as (Hnd & Hlen & Hfl & Hhd). rewrite Hq in *.
    repeat split; simpl; try done.
    + unfold push. apply NoDup_app. split; [done|]. split; [|apply NoDup_singleton].
      intros y Hy Hy'%list_elem_of_singleton; subst y. done.
    + by apply Hfl.
Qed.

Lemma settle_inv t s s1 :
  consistent s → settle t s = Some s1 →
  inFlight s = [t] ∧ s1 = set_inFlight [] s ∧ processingOffer s = true
  ∧ receivedOffers s ≠ [] ∧ NoDup (receivedOffers s).
Proof.
  intros (Hnd & Hlen & Hfl & Hhd). unfold settle. case_decide as Hin; [|done].
  intros [= <-].
  assert (inFlight s = [t]) as Hf.
  { destruct (inFlight s) as [|t' [|t'' l]]; simpl in *;
      [by apply elem_of_nil in Hin | by apply list_elem_of_singleton in Hin as -> | lia]. }
  rewrite Hf in *. rewrite removeFirst_head. destruct Hfl as [? ?]; done.
Qed.

Lemma onOfferChanged_pipeline now offer oldState s :
  pipeline (onOfferChanged now offer oldState s) = pipeline s.
Proof.
  unfold onOfferChanged. cbv zeta.
  set (s0 := emit _ s).
  assert (pipeline s0 = pipeline s) as <- by done.
  match goal with |- pipeline (if _ then _ else ?e) = _ =>
    match e with context [forEach ?l ?f ?x] => set (s1 := x) end end.
  assert (pipeline s1 = pipeline s0) as <-.
  { subst s1. destruct (decide (_ ∨ _)).
    - destruct (_ && _); unfold pipeline; simpl;
        by destruct (reserve_all_frame (TradeOffer.itemsToGive offer) EconItem.id s0)
          as [[= -> -> ->] _].
    - unfold pipeline; simpl;
        by destruct (release_all_frame (TradeOffer.itemsToGive offer) EconItem.assetid s0)
          as [[= -> -> ->] _]. }
  destruct (decide (_ ∧ _)); [done|].
  unfold pipeline; simpl.
  by destruct (remove_all_frame (TradeOffer.itemsToGive offer) EconItem.assetid s1)
    as [[= -> -> ->] _].
Qed.

Lemma onNewOffer_consistent now offer s : consistent s → consistent (onNewOffer now offer s).
Proof.
  intros Hs. unfold onNewOffer. destruct (TradeOffer.isGlitched offer).
  { by apply (pipeline_consistent s). }
  cbv zeta. apply enqueueOffer_consistent.
  apply (pipeline_consistent s); [|done]. unfold pipeline; simpl.
  by destruct (reserve_all_frame (TradeOffer.itemsToGive offer) EconItem.assetid
                 (emit (Log "info" MsgReceivedOffer) s)) as [[= -> -> ->] _].
Qed.

Lemma onOfferList_consistent now filter sent received s :
  consistent s → consistent (onOfferList now filter sent received s).
Proof.
  intros Hs. unfold onOfferList. cbv zeta.
  apply forEach_invariant; [intros; by apply enqueueOffer_consistent|].
  apply (pipeline_consistent s); [|done]. by destruct (_ && _).
Qed.

Lemma fetchOfferCallback_consistent now offerId r s :
  NoDup (receivedOffers s) → inFlight s = [] → processingOffer s = true →
  receivedOffers s ≠ [] → consistent (fetchOfferCallback now offerId r s).
Proof.
  intros Hq Hf Hp Hne. unfold fetchOfferCallback.
  destruct r as [err|[offer|]].
  - cbv zeta. apply finishProcessingOffer_consistent.
    + case_decide; simpl; [by apply removeFirst_push_NoDup | by apply removeFirst_NoDup].
    + by case_decide.
  - by apply handlerProcessOffer_consistent.
  - apply finishProcessingOffer_consistent; [by apply removeFirst_NoDup | done].
Qed.

Lemma decisionCallback_consistent now offer start r s :
  NoDup (receivedOffers s) → inFlight s = [] → processingOffer s = true →
  receivedOffers s ≠ [] → consistent (decisionCallback now offer start r s).
Proof.
  intros Hq Hf Hp Hne. unfold decisionCallback.
  destruct r as [err|response]; [by apply consistent_idle|].
  cbv zeta. repeat case_decide.
  - apply (consistent_one _ (ActingOnOffer offer response now)); simpl; try done.
    by rewrite Hf.
  - apply (consistent_one _ (ActingOnOffer offer response now)); simpl; try done.
    by rewrite Hf.
  - by apply consistent_idle.
Qed.

Lemma actionCallback_consistent now offer response start r s :
  NoDup (receivedOffers s) → inFlight s = [] →
  consistent (actionCallback now offer response start r s).
Proof.
  intros Hq Hf. unfold actionCallback.
  destruct r as [err|status]; [by apply consistent_idle|].
  cbv zeta. apply finishProcessingOffer_consistent.
  - repeat case_decide; simpl; by apply removeFirst_NoDup.
  - by repeat case_decide.
Qed.

Lemma step_consistent now e s s' : consistent s → step now e s = Some s' → consistent s'.
Proof.
  intros Hs. destruct e; simpl.
  - intros [= <-]. by apply onNewOffer_consistent.
  - intros [= <-]. by apply onOfferList_consistent.
  - intros [= <-]. apply (pipeline_consistent s); [|done].
    symmetry. apply onOfferChanged_pipeline.
  - destruct (settle _ s) as [s1|] eqn:Hs1; [|done]. intros [= <-].
    destruct (settle_inv _ _ _ Hs Hs1) as (_ & -> & ? & ? & ?).
    by apply fetchOfferCallback_consistent.
  - destruct (settle _ s) as [s1|] eqn:Hs1; [|done]. intros [= <-].
    destruct (settle_inv _ _ _ Hs Hs1) as (_ & -> & ? & ? & ?).
    by apply decisionCallback_consistent.
  - destruct (settle _ s) as [s1|] eqn:Hs1; [|done]. intros [= <-].
    destruct (settle_inv _ _ _ Hs Hs1) as (_ & -> & ? & ? & ?).
    by apply actionCallback_consistent.
  - unfold settle_detached. case_decide; [|done]. intros [= <-].
    by apply (pipeline_consistent s).
  - unfold settle_detached. case_decide; [|done]. intros [= <-].
    apply (pipeline_consistent s); [|done]. unfold confirmationCallback.
    by destruct err.
Qed.

Lemma run_consistent evs s s' : consistent s → run evs s = Some s' → consistent s'.
Proof.
  revert s. induction evs as [|[now e] evs IH]; intros s Hs; simpl.
  - by intros [= <-].
  - destruct (step now e s) as [s1|] eqn:Hstep; [|done].
    apply IH. by apply (step_consistent now e s).
Qed.

(** ** Effects of the callbacks *)

Lemma emits_same P s s' : effects s' = effects s → emits P s s'.
Proof. intros E. exists []. by rewrite app_nil_r. Qed.

Lemma emits_list P l s s' : effects s' = effects s ++ l → Forall P l → emits P s s'.
Proof. intros ? ?. by exists l. Qed.

Lemma emits_trans P s1 s2 s3 : emits P s1 s2 → emits P s2 s3 → emits P s1 s3.
Proof.
  intros (l1 & E1 & H1) (l2 & E2 & H2). exists (l1 ++ l2). split.
  - by rewrite E2, E1, app_assoc.
  - by apply Forall_app.
Qed.

Lemma emits_weaken (P Q : effect → Prop) s s' :
  (∀ e, P e → Q e) → emits P s s' → emits Q s s'.
Proof. intros HPQ (l & E & H). exists l. split; [done|]. by eapply Forall_impl. Qed.

Lemma emits_forEach {A} P (l : list A) f s :
  (∀ x s, emits P s (f x s)) → emits P s (forEach l f s).
Proof.
  intros Hf. revert s. induction l as [|x l IH]; intros s.
  - by apply emits_same.
  - rewrite forEach_cons. eapply emits_trans; [apply Hf | apply IH].
Qed.

Lemma emits_emitted P s s' : emits P s s' → Forall P (emitted s s').
Proof.
  intros (l & E & H). unfold emitted. by rewrite E, drop_app_length.
Qed.

Lemma emitted_list l s s' : effects s' = effects s ++ l → emitted s s' = l.
Proof. intros E. unfold emitted. by rewrite E, drop_app_length. Qed.

(** Closes [emits P s s'] when [s'] is a straight-line update of [s]. *)
Ltac emits_now :=
  first
    [ apply emits_same; reflexivity
    | eapply emits_list;
      [ simpl; rewrite <- ?app_assoc; simpl; reflexivity
      | repeat constructor ] ].

Lemma processNextOffer_quiet s : emits quiet s (processNextOffer s).
Proof.
  destruct (processingOffer s) eqn:Hp.
  { rewrite processNextOffer_idle by auto. by apply emits_same. }
  destruct (receivedOffers s) as [|offerId rest] eqn:Hq.
  { rewrite processNextOffer_idle by auto. by apply emits_same. }
  rewrite (processNextOffer_starts s offerId rest) by done. emits_now.
Qed.

Lemma finishProcessingOffer_quiet offerId s : emits quiet s (finishProcessingOffer offerId s).
Proof.
  unfold finishProcessingOffer. cbv zeta.
  eapply emits_trans; [|apply processNextOffer_quiet].
  apply emits_same. simpl. apply dequeueOffer_frame.
Qed.

Lemma handlerProcessOffer_quiet now offer s : emits quiet s (handlerProcessOffer now offer s).
Proof. unfold handlerProcessOffer. emits_now. Qed.

Lemma enqueueOffer_quiet now offer s : emits quiet s (enqueueOffer now offer s).
Proof.
  unfold enqueueOffer. case_decide; [|by apply emits_same].
  cbv zeta. case_decide.
  - eapply emits_trans; [|apply handlerProcessOffer_quiet]. by apply emits_same.
  - eapply emits_trans; [|apply processNextOffer_quiet]. by apply emits_same.
Qed.

Lemma fetchOfferCallback_quiet now offerId r s :
  emits quiet s (fetchOfferCallback now offerId r s).
Proof.
  unfold fetchOfferCallback. destruct r as [err|[offer|]]; cbv zeta.
  - eapply emits_trans; [|apply finishProcessingOffer_quiet]. case_decide; emits_now.
  - apply handlerProcessOffer_quiet.
  - apply finishProcessingOffer_quiet.
Qed.

Lemma decisionCallback_quiet now offer start r s :
  emits quiet s (decisionCallback now offer start r s).
Proof.
  unfold decisionCallback, acceptOffer, declineOffer.
  destruct r as [err|response]; cbv zeta; repeat case_decide; emits_now.
Qed.

Lemma actionCallback_quiet now offer response start r s :
  emits quiet s (actionCallback now offer response start r s).
Proof.
  unfold actionCallback, acceptConfirmation.
  destruct r as [err|status]; cbv zeta; [emits_now|].
  eapply emits_trans; [|apply finishProcessingOffer_quiet].
  repeat case_decide; emits_now.
Qed.

Lemma confirmationCallback_quiet now offer start err s :
  emits quiet s (confirmationCallback now offer start err s).
Proof. unfold confirmationCallback. destruct err; emits_now. Qed.

Lemma onNewOffer_quiet now offer s : emits quiet s (onNewOffer now offer s).
Proof.
  unfold onNewOffer. destruct (TradeOffer.isGlitched offer); [emits_now|].
  cbv zeta. eapply emits_trans; [|apply enqueueOffer_quiet].
  apply (emits_trans _ _ (emit (Log "info" MsgReceivedOffer) s)); [emits_now|].
  apply emits_same. simpl. apply reserve_all_frame.
Qed.

Lemma onOfferList_quiet now filter sent received s :
  emits quiet s (onOfferList now filter sent received s).
Proof.
  unfold onOfferList. cbv zeta.
  eapply emits_trans; [|apply emits_forEach; intros; apply enqueueOffer_quiet].
  destruct (_ && _); emits_now.
Qed.

Lemma quiet_notTradeDone e : quiet e → notTradeDone e.
Proof. intros Hq offer oldState ->. done. Qed.

(** ** The reservation array *)

Lemma occurrences_NoDup (a : string) (l : list string) :
  NoDup l →
  length (List.filter (λ x, bool_decide (x = a)) l) = if decide (a ∈ l) then 1%nat else 0%nat.
Proof.
  induction 1 as [|z l Hz Hl IH]; simpl.
  - done.
  - case_bool_decide as Hza; simpl.
    + subst z. rewrite IH. rewrite decide_False by done.
      rewrite decide_True by apply list_elem_of_here. done.
    + rewrite IH. destruct (decide (a ∈ l)) as [Hin|Hout].
      * rewrite decide_True by by apply list_elem_of_further. done.
      * rewrite decide_False; [done|]. rewrite not_elem_of_cons. split; [congruence|done].
Qed.

Lemma setItemInTrade_NoDup a s :
  NoDup (itemsInTrade s) → NoDup (itemsInTrade (setItemInTrade a s)).
Proof.
  intros Hnd. rewrite setItemInTrade_items. case_decide; [done|].
  unfold push. apply NoDup_app. split; [done|]. split; [|apply NoDup_singleton].
  intros y Hy Hy'%list_elem_of_singleton; subst y. done.
Qed.

Lemma unsetItemInTrade_NoDup a s :
  NoDup (itemsInTrade s) → NoDup (itemsInTrade (unsetItemInTrade a s)).
Proof. intros Hnd. rewrite unsetItemInTrade_items. by apply removeFirst_NoDup. Qed.

Lemma setItemInTrade_keeps a b s :
  b ∈ itemsInTrade s → b ∈ itemsInTrade (setItemInTrade a s).
Proof.
  intros Hb. rewrite setItemInTrade_items. case_decide; [done|].
  unfold push. apply elem_of_app. by left.
Qed.

Lemma setItemInTrade_reserved a s : a ∈ itemsInTrade (setItemInTrade a s).
Proof.
  rewrite setItemInTrade_items. case_decide; [done|].
  unfold push. apply elem_of_app. right. apply list_elem_of_here.
Qed.

Lemma unsetItemInTrade_released a s :
  NoDup (itemsInTrade s) → a ∉ itemsInTrade (unsetItemInTrade a s).
Proof. intros Hnd. rewrite unsetItemInTrade_items. by apply removeFirst_gone. Qed.

Lemma unsetItemInTrade_stays_released a b s :
  b ∉ itemsInTrade s → b ∉ itemsInTrade (unsetItemInTrade a s).
Proof.
  intros Hb Hin. rewrite unsetItemInTrade_items in Hin.
  by apply removeFirst_subset in Hin.
Qed.

Lemma reserve_all_NoDup {A} (l : list A) (f : A → string) s :
  NoDup (itemsInTrade s) → NoDup (itemsInTrade (forEach l (λ x, setItemInTrade (f x)) s)).
Proof.
  apply (forEach_invariant (λ s, NoDup (itemsInTrade s))).
  intros x t. apply setItemInTrade_NoDup.
Qed.

Lemma release_all_NoDup {A} (l : list A) (f : A → string) s :
  NoDup (itemsInTrade s) → NoDup (itemsInTrade (forEach l (λ x, unsetItemInTrade (f x)) s)).
Proof.
  apply (forEach_invariant (λ s, NoDup (itemsInTrade s))).
  intros x t. apply unsetItemInTrade_NoDup.
Qed.

Lemma reserve_all_keeps {A} (l : list A) (f : A → string) b s :
  b ∈ itemsInTrade s → b ∈ itemsInTrade (forEach l (λ x, setItemInTrade (f x)) s).
Proof.
  apply (forEach_invariant (λ s, b ∈ itemsInTrade s)).
  intros x t. apply setItemInTrade_keeps.
Qed.

Lemma reserve_all_reserved {A} (l : list A) (f : A → string) x s :
  x ∈ l → f x ∈ itemsInTrade (forEach l (λ x, setItemInTrade (f x)) s).
Proof.
  revert s. induction l as [|y l IH]; intros s Hx; [by apply elem_of_nil in Hx|].
  rewrite forEach_cons. apply elem_of_cons in Hx as [->|Hx].
  - apply reserve_all_keeps, setItemInTrade_reserved.
  - by apply IH.
Qed.

Lemma release_all_stays_released {A} (l : list A) (f : A → string) b s :
  b ∉ itemsInTrade s → b ∉ itemsInTrade (forEach l (λ x, unsetItemInTrade (f x)) s).
Proof.
  apply (forEach_invariant (λ s, b ∉ itemsInTrade s)).
  intros x t. apply unsetItemInTrade_stays_released.
Qed.

Lemma release_all_released {A} (l : list A) (f : A → string) x s :
  NoDup (itemsInTrade s) → x ∈ l →
  f x ∉ itemsInTrade (forEach l (λ x, unsetItemInTrade (f x)) s).
Proof.
  revert s. induction l as [|y l IH]; intros s Hnd Hx; [by apply elem_of_nil in Hx|].
  rewrite forEach_cons. apply elem_of_cons in Hx as [->|Hx].
  - by apply release_all_stays_released, unsetItemInTrade_released.
  - apply IH; [by apply unsetItemInTrade_NoDup | done].
Qed.

Lemma reserve_all_items {A} (l : list A) (f : A → string) s t :
  itemsInTrade s = itemsInTrade t →
  itemsInTrade (forEach l (λ x, setItemInTrade (f x)) s)
  = itemsInTrade (forEach l (λ x, setItemInTrade (f x)) t).
Proof.
  revert s t. induction l as [|x l IH]; intros s t Hst; [done|].
  rewrite !forEach_cons. apply IH. by rewrite !setItemInTrade_items, Hst.
Qed.

Lemma release_all_items {A} (l : list A) (f : A → string) s t :
  itemsInTrade s = itemsInTrade t →
  itemsInTrade (forEach l (λ x, unsetItemInTrade (f x)) s)
  = itemsInTrade (forEach l (λ x, unsetItemInTrade (f x)) t).
Proof.
  revert s t. induction l as [|x l IH]; intros s t Hst; [done|].
  rewrite !forEach_cons. apply IH. by rewrite !unsetItemInTrade_items, Hst.
Qed.

Lemma onOfferChanged_items_active now offer oldState s :
  activeFamily (TradeOffer.state offer) →
  itemsInTrade (onOfferChanged now offer oldState s)
  = itemsInTrade (forEach (TradeOffer.itemsToGive offer)
                    (λ item, setItemInTrade (EconItem.id item)) s).
Proof.
  intros Hact. unfold onOfferChanged. cbv zeta.
  destruct (decide (_ ∨ _)) as [_|Hn]; [|by destruct Hn].
  assert (TradeOffer.state offer ≠ Accepted ∧ TradeOffer.state offer ≠ InEscrow) as Hna.
  { destruct Hact as [-> | ->]; done. }
  destruct (decide (_ ∧ _)) as [_|Hn]; [|by destruct Hn].
  transitivity (itemsInTrade (forEach (TradeOffer.itemsToGive offer)
      (λ item, setItemInTrade (EconItem.id item))
      (emit (Log "verbose" (MsgStateChanged oldState (TradeOffer.state offer))) s))).
  - by destruct (_ && _).
  - by apply reserve_all_items.
Qed.

Lemma onOfferChanged_items_inactive now offer oldState s :
  ¬ activeFamily (TradeOffer.state offer) →
  itemsInTrade (onOfferChanged now offer oldState s)
  = itemsInTrade (forEach (TradeOffer.itemsToGive offer)
                    (λ item, unsetItemInTrade (EconItem.assetid item)) s).
Proof.
  intros Hact. unfold onOfferChanged. cbv zeta.
  destruct (decide (_ ∨ _)) as [Hy|_]; [by destruct Hact|].
  transitivity (itemsInTrade (forEach (TradeOffer.itemsToGive offer)
      (λ item, unsetItemInTrade (EconItem.assetid item))
      (emit (Log "verbose" (MsgStateChanged oldState (TradeOffer.state offer))) s))).
  - case_decide; simpl; [done|].
    by rewrite (forEach_preserves itemsInTrade) by done.
  - by apply release_all_items.
Qed.

Lemma processNextOffer_items s : itemsInTrade (processNextOffer s) = itemsInTrade s.
Proof.
  destruct (processingOffer s) eqn:Hp.
  { by rewrite processNextOffer_idle by auto. }
  destruct (receivedOffers s) as [|offerId rest] eqn:Hq.
  { by rewrite processNextOffer_idle by auto. }
  by rewrite (processNextOffer_starts s offerId rest).
Qed.

Lemma finishProcessingOffer_items offerId s :
  itemsInTrade (finishProcessingOffer offerId s) = itemsInTrade s.
Proof.
  unfold finishProcessingOffer. cbv zeta. rewrite processNextOffer_items. simpl.
  apply dequeueOffer_frame.
Qed.

Lemma enqueueOffer_items now offer s :
  itemsInTrade (enqueueOffer now offer s) = itemsInTrade s.
Proof.
  unfold enqueueOffer. case_decide; [|done]. cbv zeta. case_decide; [done|].
  by rewrite processNextOffer_items.
Qed.

Lemma fetchOfferCallback_items now offerId r s :
  itemsInTrade (fetchOfferCallback now offerId r s) = itemsInTrade s.
Proof.
  unfold fetchOfferCallback. destruct r as [err|[offer|]]; cbv zeta;
    rewrite ?finishProcessingOffer_items; [by case_decide|done..].
Qed.

Lemma decisionCallback_items now offer start r s :
  itemsInTrade (decisionCallback now offer start r s) = itemsInTrade s.
Proof.
  unfold decisionCallback. destruct r as [err|response]; [done|].
  cbv zeta. by repeat case_decide.
Qed.

Lemma actionCallback_items now offer response start r s :
  itemsInTrade (actionCallback now offer response start r s) = itemsInTrade s.
Proof.
  unfold actionCallback. destruct r as [err|status]; [done|].
  cbv zeta. rewrite finishProcessingOffer_items. by repeat case_decide.
Qed.

Lemma step_reserved_NoDup now e s s' :
  NoDup (itemsInTrade s) → step now e s = Some s' → NoDup (itemsInTrade s').
Proof.
  intros Hs. destruct e; simpl.
  - intros [= <-]. unfold onNewOffer. destruct (TradeOffer.isGlitched offer); [done|].
    cbv zeta. rewrite enqueueOffer_items. simpl. by apply reserve_all_NoDup.
  - intros [= <-]. unfold onOfferList. cbv zeta.
    rewrite (forEach_preserves itemsInTrade) by (intros; apply enqueueOffer_items).
    by destruct (_ && _).
  - intros [= <-].
    destruct (decide (activeFamily (TradeOffer.state offer))).
    + rewrite onOfferChanged_items_active by done. by apply reserve_all_NoDup.
    + rewrite onOfferChanged_items_inactive by done. by apply release_all_NoDup.
  - unfold settle. case_decide; [|done]. intros [= <-].
    by rewrite fetchOfferCallback_items.
  - unfold settle. case_decide; [|done]. intros [= <-].
    by rewrite decisionCallback_items.
  - unfold settle. case_decide; [|done]. intros [= <-].
    by rewrite actionCallback_items.
  - unfold settle_detached. case_decide; [|done]. by intros [= <-].
  - unfold settle_detached. case_decide; [|done]. intros [= <-].
    unfold confirmationCallback. by destruct err.
Qed.

Lemma run_reserved_NoDup evs s s' :
  NoDup (itemsInTrade s) → run evs s = Some s' → NoDup (itemsInTrade s').
Proof.
  revert s. induction evs as [|[now e] evs IH]; intros s Hs; simpl.
  - by intros [= <-].
  - destruct (step now e s) as [s1|] eqn:Hstep; [|done].
    apply IH. by apply (step_reserved_NoDup now e s).
Qed.

Lemma notify_active_NoDup offer changes s :
  Forall (λ c, activeFamily c.1.2) changes →
  NoDup (itemsInTrade s) → NoDup (itemsInTrade (notify offer changes s)).
Proof.
  intros Hall. revert s. unfold notify.
  induction Hall as [|[[now st] old] changes Hact _ IH]; intros s Hs; [done|].
  rewrite forEach_cons. apply IH.
  rewrite onOfferChanged_items_active by done. by apply reserve_all_NoDup.
Qed.

Lemma notify_active_keeps offer changes b s :
  Forall (λ c, activeFamily c.1.2) changes →
  b ∈ itemsInTrade s → b ∈ itemsInTrade (notify offer changes s).
Proof.
  intros Hall. revert s. unfold notify.
  induction Hall as [|[[now st] old] changes Hact _ IH]; intros s Hs; [done|].
  rewrite forEach_cons. apply IH.
  rewrite onOfferChanged_items_active by done. by apply reserve_all_keeps.
Qed.

(** ** What a transition does to the queue *)

Lemma processNextOffer_queue s : receivedOffers (processNextOffer s) = receivedOffers s.
Proof.
  destruct (processingOffer s) eqn:Hp.
  { by rewrite processNextOffer_idle by auto. }
  destruct (receivedOffers s) as [|offerId rest] eqn:Hq.
  { by rewrite processNextOffer_idle by auto. }
  by rewrite (processNextOffer_starts s offerId rest).
Qed.

Lemma finishProcessingOffer_queue offerId s :
  receivedOffers (finishProcessingOffer offerId s) = removeFirst offerId (receivedOffers s).
Proof.
  unfold finishProcessingOffer. cbv zeta. rewrite processNextOffer_queue. simpl.
  apply dequeueOffer_queue.
Qed.

Lemma enqueueOffer_queue now offer s :
  receivedOffers (enqueueOffer now offer s)
  = if decide (TradeOffer.id offer ∈ receivedOffers s) then receivedOffers s
    else push (TradeOffer.id offer) (receivedOffers s).
Proof.
  case_decide as Hin; [by rewrite enqueueOffer_present|].
  destruct (receivedOffers s) as [|x q] eqn:Hq.
  - rewrite enqueueOffer_first by done. done.
  - rewrite enqueueOffer_later by (by rewrite Hq). rewrite processNextOffer_queue.
    simpl. by rewrite Hq.
Qed.

Lemma enqueueOffer_keeps now offer x s :
  x ∈ receivedOffers s → x ∈ receivedOffers (enqueueOffer now offer s).
Proof.
  intros Hx. rewrite enqueueOffer_queue. case_decide; [done|].
  unfold push. apply elem_of_app. by left.
Qed.

Lemma finishProcessingOffer_after_head offerId next rest s :
  receivedOffers s = offerId :: next :: rest →
  finishProcessingOffer offerId s
  = await (FetchingOffer next)
      (emit (FetchOffer next)
         (emit (Log "verbose" (MsgHandlingOffer next))
            (set_processingOffer true
               (set_processingOffer false (dequeueOffer offerId s))))).
Proof.
  intros Hq. unfold finishProcessingOffer. cbv zeta.
  apply (processNextOffer_starts _ next rest); [done|]. simpl.
  by rewrite dequeueOffer_queue, Hq, removeFirst_head.
Qed.

Lemma finishProcessingOffer_last offerId s :
  receivedOffers s = [offerId] →
  finishProcessingOffer offerId s = set_processingOffer false (dequeueOffer offerId s).
Proof.
  intros Hq. unfold finishProcessingOffer. cbv zeta.
  apply processNextOffer_idle. right. simpl.
  by rewrite dequeueOffer_queue, Hq, removeFirst_head.
Qed.

(** A fetch that exhausted its retries, by the length of the queue. *)
Lemma fetch_rejected_alone now offerId err s :
  receivedOffers s = [offerId] →
  let s' := fetchOfferCallback now offerId (Rejected err) s in
  receivedOffers s' = [] ∧ processingOffer s' = false ∧ inFlight s' = inFlight s.
Proof.
  intros Hq. unfold fetchOfferCallback. cbv zeta. simpl. rewrite Hq. simpl.
  rewrite finishProcessingOffer_last by done. simpl.
  rewrite dequeueOffer_queue. simpl. rewrite Hq, removeFirst_head.
  repeat split. by destruct (dequeueOffer_frame offerId
    (emit (Log "warn" (MsgFailedToGetOffer offerId err)) s)) as (_ & -> & _).
Qed.

Lemma fetch_rejected_others now offerId next rest err s :
  receivedOffers s = offerId :: next :: rest →
  let s' := fetchOfferCallback now offerId (Rejected err) s in
  receivedOffers s' = next :: rest ++ [offerId]
  ∧ processingOffer s' = true
  ∧ inFlight s' = inFlight s ++ [FetchingOffer next]
  ∧ emitted s s' = [Log "warn" (MsgFailedToGetOffer offerId err);
                    Log "verbose" (MsgHandlingOffer next); FetchOffer next].
Proof.
  intros Hq. unfold fetchOfferCallback. cbv zeta. simpl. rewrite Hq. simpl.
  set (s1 := set_receivedOffers _ _).
  rewrite (finishProcessingOffer_after_head offerId next (rest ++ [offerId]) s1)
    by (subst s1; simpl; done).
  simpl. rewrite dequeueOffer_queue.
  destruct (dequeueOffer_frame offerId s1) as (_ & -> & Heff & _).
  repeat split.
  - subst s1. simpl. unfold push. simpl. by rewrite removeFirst_head.
  - apply emitted_list. simpl. rewrite Heff. subst s1. simpl.
    by rewrite <- !app_assoc.
Qed.

Lemma fetchOfferCallback_queue now offerId r s :
  receivedOffers (fetchOfferCallback now offerId r s)
  = match r with
    | Rejected _ =>
        removeFirst offerId
          (if decide (length (receivedOffers s) ≠ 1%nat)
           then push offerId (receivedOffers s) else receivedOffers s)
    | Resolved None => removeFirst offerId (receivedOffers s)
    | Resolved (Some _) => receivedOffers s
    end.
Proof.
  unfold fetchOfferCallback. destruct r as [err|[offer|]]; cbv zeta;
    rewrite ?finishProcessingOffer_queue; [|done..].
  simpl. by case_decide.
Qed.

Lemma decisionCallback_queue now offer start r s :
  receivedOffers (decisionCallback now offer start r s) = receivedOffers s.
Proof.
  unfold decisionCallback. destruct r as [err|response]; [done|].
  cbv zeta. by repeat case_decide.
Qed.

Lemma actionCallback_queue now offer response start r s :
  receivedOffers (actionCallback now offer response start r s)
  = match r with
    | inl _ => receivedOffers s
    | inr _ => removeFirst (TradeOffer.id offer) (receivedOffers s)
    end.
Proof.
  unfold actionCallback. destruct r as [err|status]; [done|].
  cbv zeta. rewrite finishProcessingOffer_queue. by repeat case_decide.
Qed.

Lemma onNewOffer_keeps now offer x s :
  x ∈ receivedOffers s → x ∈ receivedOffers (onNewOffer now offer s).
Proof.
  intros Hx. unfold onNewOffer. destruct (TradeOffer.isGlitched offer); [done|].
  cbv zeta. apply enqueueOffer_keeps. simpl.
  by rewrite (forEach_preserves receivedOffers)
    by (intros; apply (f_equal (λ p, p.1.1) (proj1 (setItemInTrade_frame _ _)))).
Qed.

Lemma onOfferList_keeps now filter sent received x s :
  x ∈ receivedOffers s → x ∈ receivedOffers (onOfferList now filter sent received s).
Proof.
  intros Hx. unfold onOfferList. cbv zeta.
  apply (forEach_invariant (λ s, x ∈ receivedOffers s)).
  - intros. by apply enqueueOffer_keeps.
  - by destruct (_ && _).
Qed.

(** An id leaves the queue only when its own pass finishes. *)
Lemma step_dequeues now e s s' x :
  step now e s = Some s' → x ∈ receivedOffers s → x ∉ receivedOffers s' →
  e = FetchSettled x (Resolved None)
  ∨ (∃ err, e = FetchSettled x (Rejected err) ∧ receivedOffers s = [x])
  ∨ (∃ offer response start status,
       e = ActionSettled offer response start (inr status) ∧ TradeOffer.id offer = x).
Proof.
  intros Hstep Hin Hout. destruct e; simpl in Hstep.
  - injection Hstep as <-. destruct Hout. by apply onNewOffer_keeps.
  - injection Hstep as <-. destruct Hout. by apply onOfferList_keeps.
  - injection Hstep as <-. destruct Hout.
    pose proof (onOfferChanged_pipeline now offer oldState s) as [= -> _ _]. done.
  - unfold settle in Hstep. case_decide; [|done]. injection Hstep as <-.
    rewrite fetchOfferCallback_queue in Hout. simpl in Hout.
    destruct r as [err|[offer|]]; [| done |].
    + destruct (decide (offerId = x)) as [->|Hne].
      2:{ destruct Hout. apply removeFirst_other; [done|].
          case_decide; [|done]. unfold push. apply elem_of_app. by left. }
      right; left. exists err. split; [done|].
      case_decide as Hlen.
      * destruct Hout. rewrite removeFirst_push by done.
        unfold push. apply elem_of_app. right. apply list_elem_of_here.
      * destruct (receivedOffers s) as [|y [|z q]]; simpl in *;
          [by apply elem_of_nil in Hin | | lia].
        by apply list_elem_of_singleton in Hin as ->.
    + destruct (decide (offerId = x)) as [->|Hne]; [by left|].
      destruct Hout. by apply removeFirst_other.
  - unfold settle in Hstep. case_decide; [|done]. injection Hstep as <-.
    by rewrite decisionCallback_queue in Hout.
  - unfold settle in Hstep. case_decide; [|done]. injection Hstep as <-.
    rewrite actionCallback_queue in Hout. simpl in Hout.
    destruct r as [err|status]; [done|].
    destruct (decide (TradeOffer.id offer = x)) as [Heq|Hne].
    + right; right. by exists offer, response, start, status.
    + destruct Hout. by apply removeFirst_other.
  - unfold settle_detached in Hstep. case_decide; [|done]. by injection Hstep as <-.
  - unfold settle_detached in Hstep. case_decide; [|done]. injection Hstep as <-.
    unfold confirmationCallback in Hout. by destruct err.
Qed.

Lemma step_fetch_settled_from now offerId r s :
  inFlight s = [FetchingOffer offerId] →
  step now (FetchSettled offerId r) s
  = Some (fetchOfferCallback now offerId r (set_inFlight [] s)).
Proof.
  intros Hf. unfold step, settle. rewrite Hf.
  rewrite decide_True by apply list_elem_of_here. by rewrite removeFirst_head.
Qed.

Lemma step_fetch_settled now offerId r s s' :
  consistent s → step now (FetchSettled offerId r) s = Some s' →
  inFlight s = [FetchingOffer offerId]
  ∧ s' = fetchOfferCallback now offerId r (set_inFlight [] s).
Proof.
  intros Hs Hstep. unfold step in Hstep.
  destruct (settle _ s) as [s1|] eqn:Hs1; [|done].
  destruct (settle_inv _ _ _ Hs Hs1) as (Hf & -> & _).
  split; [done|].
  change (Some (fetchOfferCallback now offerId r (set_inFlight [] s)) = Some s') in Hstep.
  by injection Hstep.
Qed.

(** ** Failed fetches, exclusivity and order of the queue *)

(** C1, as the code has it.  When the fetch of an offer id exhausts its
    retries, the id is at the front of the queue.  If it is the only
    entry, finishing the pass removes it: the queue is empty, the
    processing flag is cleared and nothing is pending, so the queue does
    not retry it.  If there are more entries, the id moves to the tail
    and the next entry is fetched.  An id leaves the queue only when its
    own pass finishes: on a fetch resolved absent, on such a failed fetch
    of a lone entry, or on an action that succeeded. *)
Theorem failed_fetch_requeued_unless_alone now e s s' :
  consistent s → step now e s = Some s' →
  (∀ offerId err, e = FetchSettled offerId (Rejected err) →
     ∃ rest, receivedOffers s = offerId :: rest ∧
       match rest with
       | [] =>
           receivedOffers s' = [] ∧ processingOffer s' = false ∧ inFlight s' = []
       | next :: _ =>
           receivedOffers s' = rest ++ [offerId] ∧ processingOffer s' = true
           ∧ inFlight s' = [FetchingOffer next]
       end)
  ∧ (∀ x, x ∈ receivedOffers s → x ∉ receivedOffers s' →
       e = FetchSettled x (Resolved None)
       ∨ (∃ err, e = FetchSettled x (Rejected err) ∧ receivedOffers s = [x])
       ∨ (∃ offer response start status,
            e = ActionSettled offer response start (inr status)
            ∧ TradeOffer.id offer = x)).
Proof.
  intros Hs Hstep. split; [|intros x; by apply (step_dequeues now e s s' x)].
  intros offerId err ->.
  destruct (step_fetch_settled _ _ _ _ _ Hs Hstep) as (Hf & ->).
  destruct Hs as (_ & _ & _ & Hhd).
  specialize (Hhd offerId). rewrite Hf in Hhd.
  specialize (Hhd (list_elem_of_here _ _)).
  destruct (receivedOffers s) as [|y rest] eqn:Hq; [done|].
  injection Hhd as ->. exists rest. split; [done|].
  destruct rest as [|next rest].
  - by apply (fetch_rejected_alone now offerId err (set_inFlight [] s)).
  - destruct (fetch_rejected_others now offerId next rest err (set_inFlight [] s))
      as (? & ? & ? & _); done.
Qed.

Lemma failed_fetch_requeued_unless_alone_witness :
  (∀ offerId err, FetchSettled 2 (Rejected timeout) = FetchSettled offerId (Rejected err) →
     ∃ rest, receivedOffers afterTwoWaiting = offerId :: rest ∧
       match rest with
       | [] =>
           receivedOffers fetchFailedOfTwo = []
           ∧ processingOffer fetchFailedOfTwo = false ∧ inFlight fetchFailedOfTwo = []
       | next :: _ =>
           receivedOffers fetchFailedOfTwo = rest ++ [offerId]
           ∧ processingOffer fetchFailedOfTwo = true
           ∧ inFlight fetchFailedOfTwo = [FetchingOffer next]
       end)
  ∧ (∀ x, x ∈ receivedOffers afterTwoWaiting → x ∉ receivedOffers fetchFailedOfTwo →
       FetchSettled 2 (Rejected timeout) = FetchSettled x (Resolved None)
       ∨ (∃ err, FetchSettled 2 (Rejected timeout) = FetchSettled x (Rejected err)
                 ∧ receivedOffers afterTwoWaiting = [x])
       ∨ (∃ offer response start status,
            FetchSettled 2 (Rejected timeout)
            = ActionSettled offer response start (inr status)
            ∧ TradeOffer.id offer = x)).
Proof.
  apply (failed_fetch_requeued_unless_alone 9 _ afterTwoWaiting fetchFailedOfTwo).
  - apply (run_consistent twoWaiting (initial 30000)).
    + apply consistent_initial.
    + vm_compute. reflexivity.
  - vm_compute. reflexivity.
Defined.

(** C1, as the spec has it, fails.  After the run [oneWaiting] the queue
    holds exactly one entry, offer 2, whose fetch is pending; when that
    fetch exhausts its retries the id is not kept at the front: the queue
    is empty, nothing is pending and a later advance does nothing. *)
Lemma lone_failed_fetch_is_dropped :
  run oneWaiting (initial 30000) = Some afterOneWaiting
  ∧ receivedOffers afterOneWaiting = [2]
  ∧ inFlight afterOneWaiting = [FetchingOffer 2]
  ∧ step 9 (FetchSettled 2 (Rejected timeout)) afterOneWaiting = Some fetchFailedOfOne
  ∧ receivedOffers fetchFailedOfOne = []
  ∧ inFlight fetchFailedOfOne = []
  ∧ processNextOffer fetchFailedOfOne = fetchFailedOfOne.
Proof.
  split; [vm_compute; reflexivity|]. split; [vm_compute; reflexivity|].
  split; [vm_compute; reflexivity|]. split; [vm_compute; reflexivity|].
  split; [vm_compute; reflexivity|]. split; vm_compute; reflexivity.
Qed.

(** C2.  In every state reached from the initial one by notifications
    and callbacks, at most one operation of the pipeline (a fetch, a
    decision or an action) is pending, and while one is pending the
    processing flag is set.  The refresh of the inventory and the mobile
    confirmation are started detached and are not part of the pipeline. *)
Theorem at_most_one_offer_in_flight interval evs s :
  run evs (initial interval) = Some s →
  (length (inFlight s) ≤ 1)%nat ∧ (inFlight s ≠ [] → processingOffer s = true).
Proof.
  intros Hrun.
  destruct (run_consistent evs _ _ (consistent_initial interval) Hrun)
    as (_ & Hlen & Hfl & _).
  split; [done|]. intros Hne. by apply Hfl.
Qed.

Lemma at_most_one_offer_in_flight_witness :
  (length (inFlight afterTwoWaiting) ≤ 1)%nat
  ∧ (inFlight afterTwoWaiting ≠ [] → processingOffer afterTwoWaiting = true).
Proof.
  apply (at_most_one_offer_in_flight 30000 twoWaiting). vm_compute. reflexivity.
Defined.

(** C5.  In every state reached between two callbacks no offer id occurs
    twice in the queue, also after one more enqueue; and enqueueing an id
    that is in the queue changes nothing at all: no copy is appended and
    nothing is started. *)
Theorem queue_has_no_duplicates interval evs s now offer :
  run evs (initial interval) = Some s →
  NoDup (receivedOffers s)
  ∧ NoDup (receivedOffers (enqueueOffer now offer s))
  ∧ (TradeOffer.id offer ∈ receivedOffers s → enqueueOffer now offer s = s).
Proof.
  intros Hrun.
  pose proof (run_consistent evs _ _ (consistent_initial interval) Hrun) as Hs.
  split; [apply Hs|]. split.
  - apply (enqueueOffer_consistent now offer) in Hs. apply Hs.
  - apply enqueueOffer_present.
Qed.

Lemma queue_has_no_duplicates_witness :
  NoDup (receivedOffers afterTwoWaiting)
  ∧ NoDup (receivedOffers (enqueueOffer 7 offer3 afterTwoWaiting))
  ∧ (TradeOffer.id offer3 ∈ receivedOffers afterTwoWaiting →
     enqueueOffer 7 offer3 afterTwoWaiting = afterTwoWaiting).
Proof.
  apply (queue_has_no_duplicates 30000 twoWaiting). vm_compute. reflexivity.
Defined.

(** C6.  With the queue [O1; O2] and the fetch of O1 pending, when that
    fetch exhausts its retries the queue becomes [O2; O1] and O2 is
    fetched next; when the pass of O2 finishes, O1 is fetched again. *)
Theorem failed_fetch_goes_to_tail now O1 O2 err s s' :
  consistent s → receivedOffers s = [O1; O2] →
  step now (FetchSettled O1 (Rejected err)) s = Some s' →
  receivedOffers s' = [O2; O1]
  ∧ processingOffer s' = true
  ∧ inFlight s' = [FetchingOffer O2]
  ∧ FetchOffer O2 ∈ emitted s s'
  ∧ (∀ now' s'', step now' (FetchSettled O2 (Resolved None)) s' = Some s'' →
       receivedOffers s'' = [O1] ∧ inFlight s'' = [FetchingOffer O1])
  ∧ (∀ t, receivedOffers t = [O2; O1] → inFlight t = [] →
       receivedOffers (finishProcessingOffer O2 t) = [O1]
       ∧ inFlight (finishProcessingOffer O2 t) = [FetchingOffer O1]).
Proof.
  intros Hs Hq Hstep.
  destruct (step_fetch_settled _ _ _ _ _ Hs Hstep) as (Hf & ->).
  assert (∀ t, receivedOffers t = [O2; O1] → inFlight t = [] →
       receivedOffers (finishProcessingOffer O2 t) = [O1]
       ∧ inFlight (finishProcessingOffer O2 t) = [FetchingOffer O1]) as Hfinish.
  { intros t Ht Hft. rewrite (finishProcessingOffer_after_head O2 O1 [] t) by done.
    simpl. rewrite dequeueOffer_queue, Ht, removeFirst_head.
    destruct (dequeueOffer_frame O2 t) as (_ & -> & _). by rewrite Hft. }
  destruct (fetch_rejected_others now O1 O2 [] err (set_inFlight [] s) Hq)
    as (Hq' & Hp' & Hf' & He').
  set (s' := fetchOfferCallback now O1 (Rejected err) (set_inFlight [] s)) in *.
  simpl in Hq', Hf'.
  split; [done|]. split; [done|]. split; [done|]. split; [|split; [|done]].
  - change (FetchOffer O2 ∈ emitted (set_inFlight [] s) s').
    rewrite He'. do 2 apply list_elem_of_further. apply list_elem_of_here.
  - intros now' s'' Hstep'.
    rewrite (step_fetch_settled_from now' O2 (Resolved None) s' Hf') in Hstep'.
    apply (inj Some) in Hstep'. subst s''. unfold fetchOfferCallback. by apply Hfinish.
Qed.

Lemma failed_fetch_goes_to_tail_witness :
  receivedOffers fetchFailedOfTwo = [3; 2]
  ∧ processingOffer fetchFailedOfTwo = true
  ∧ inFlight fetchFailedOfTwo = [FetchingOffer 3]
  ∧ FetchOffer 3 ∈ emitted afterTwoWaiting fetchFailedOfTwo
  ∧ (∀ now' s'', step now' (FetchSettled 3 (Resolved None)) fetchFailedOfTwo = Some s'' →
       receivedOffers s'' = [2] ∧ inFlight s'' = [FetchingOffer 2])
  ∧ (∀ t, receivedOffers t = [3; 2] → inFlight t = [] →
       receivedOffers (finishProcessingOffer 3 t) = [2]
       ∧ inFlight (finishProcessingOffer 3 t) = [FetchingOffer 2]).
Proof.
  apply (failed_fetch_goes_to_tail 9 2 3 timeout afterTwoWaiting fetchFailedOfTwo).
  - apply (run_consistent twoWaiting (initial 30000)).
    + apply consistent_initial.
    + vm_compute. reflexivity.
  - vm_compute. reflexivity.
  - vm_compute. reflexivity.
Defined.

(** ** The fetcher *)

Lemma fetchOffer_body backoff gw offerId attempts k j :
  fetchOffer backoff gw offerId attempts k j =
  match getOffer gw k offerId with
  | inr offer =>
      if decide (TradeOffer.state offer ≠ Active) then (Resolved None, [GetOffer offerId])
      else (Resolved (Some offer), [GetOffer offerId])
  | inl err =>
      if decide (message err = "NoMatch" ∨ message err = "No matching offer found")
      then (Resolved None, [GetOffer offerId])
      else if decide (5 < S attempts)%nat then (Rejected err, [GetOffer offerId])
      else if decide (message err ≠ "Not Logged In") then
        andThen [GetOffer offerId; Delay (backoff (S attempts))]
          (fetchOffer backoff gw offerId (S attempts) (S k) j)
      else
        andThen [GetOffer offerId; GetWebSession true;
                 Delay (if decide (getWebSession gw j ≠ None) then 0
                        else backoff (S attempts))]
          (fetchOffer backoff gw offerId (S attempts) (S k) (S j))
  end.
Proof.
  simp fetchOffer.
  destruct (getOffer gw k offerId) as [err|offer]; simpl; [|done].
  destruct (decide (message err = "NoMatch" ∨ _)); simpl; [done|].
  destruct (decide (5 < S attempts)%nat); simpl; [done|].
  destruct (decide (message err ≠ "Not Logged In")); simpl; f_equal; by simp fetchOffer.
Qed.

Lemma fetchOffer_active backoff gw offerId attempts k j offer :
  getOffer gw k offerId = inr offer → TradeOffer.state offer = Active →
  fetchOffer backoff gw offerId attempts k j = (Resolved (Some offer), [GetOffer offerId]).
Proof.
  intros Hget Hact. rewrite fetchOffer_body, Hget.
  destruct (decide (TradeOffer.state offer ≠ Active)); done.
Qed.

Lemma fetchOffer_transient backoff gw offerId attempts k j err :
  getOffer gw k offerId = inl err → transient err →
  fetchOffer backoff gw offerId attempts k j
  = if decide (5 < S attempts)%nat then (Rejected err, [GetOffer offerId])
    else andThen [GetOffer offerId; Delay (backoff (S attempts))]
           (fetchOffer backoff gw offerId (S attempts) (S k) j).
Proof.
  intros Hget (Hn1 & Hn2 & Hn3). rewrite fetchOffer_body, Hget.
  destruct (decide (message err = "NoMatch" ∨ _)) as [[?|?]|_]; [done..|].
  destruct (decide (5 < S attempts)%nat); [done|].
  destruct (decide (message err ≠ "Not Logged In")); done.
Qed.

Lemma fetchOffer_session_expired backoff gw offerId attempts k j err :
  getOffer gw k offerId = inl err → message err = "Not Logged In" → (attempts < 5)%nat →
  fetchOffer backoff gw offerId attempts k j
  = andThen [GetOffer offerId; GetWebSession true;
             Delay (match getWebSession gw j with
                    | None => backoff (S attempts)
                    | Some _ => 0
                    end)]
      (fetchOffer backoff gw offerId (S attempts) (S k) (S j)).
Proof.
  intros Hget Hmsg Hlt. rewrite fetchOffer_body, Hget, Hmsg.
  destruct (decide (_ ∨ _)) as [[?|?]|_]; [done..|].
  destruct (decide (5 < S attempts)%nat); [lia|].
  destruct (decide ("Not Logged In" ≠ "Not Logged In")); [done|].
  do 3 f_equal. by destruct (getWebSession gw j).
Qed.

Section Retries.
Variables (backoff : nat → Z) (gw : Gateway) (offerId : Z) (offer : TradeOffer.t).
Variables (N j : nat).
Hypothesis failures :
  ∀ i, (i < N)%nat → ∃ err, getOffer gw i offerId = inl err ∧ transient err.
Hypothesis success : getOffer gw N offerId = inr offer.
Hypothesis active : TradeOffer.state offer = Active.

Lemma fetch_succeeds_after d a :
  (a + d = N)%nat → (N ≤ 5)%nat →
  (fetchOffer backoff gw offerId a a j).1 = Resolved (Some offer)
  ∧ getOfferCalls (fetchOffer backoff gw offerId a a j).2 = S d.
Proof.
  revert a. induction d as [|d IH]; intros a Ha HN.
  - replace a with N by lia. by rewrite (fetchOffer_active _ _ _ _ _ _ offer).
  - destruct (failures a) as (err & Hget & Herr); [lia|].
    rewrite (fetchOffer_transient _ _ _ _ _ _ err) by done.
    destruct (decide (5 < S a)%nat); [lia|].
    destruct (IH (S a)) as [Hr Hc]; [lia..|]. simpl. split; [done|].
    unfold getOfferCalls in *. simpl. by rewrite Hc.
Qed.

Lemma fetch_exhausts d a :
  (a + d = 5)%nat → (5 < N)%nat →
  ∃ err, getOffer gw 5%nat offerId = inl err
    ∧ (fetchOffer backoff gw offerId a a j).1 = Rejected err
    ∧ getOfferCalls (fetchOffer backoff gw offerId a a j).2 = S d.
Proof.
  revert a. induction d as [|d IH]; intros a Ha HN.
  - replace a with 5%nat by lia.
    destruct (failures 5%nat) as (err & Hget & Herr); [lia|]. exists err.
    rewrite (fetchOffer_transient _ _ _ _ _ _ err) by done. done.
  - destruct (failures a) as (err & Hget & Herr); [lia|].
    rewrite (fetchOffer_transient _ _ _ _ _ _ err) by done.
    destruct (decide (5 < S a)%nat); [lia|].
    destruct (IH (S a)) as (err' & Hget' & Hr & Hc); [lia..|]. exists err'.
    simpl. split; [done|]. split; [done|].
    unfold getOfferCalls in *. simpl. by rewrite Hc.
Qed.

End Retries.

(** C3, what the code does: after a session-expired error the fetcher
    forces a refresh of the session and retries with one more attempt,
    but it waits the backoff delay when the refresh succeeded and 0 when
    the refresh failed, the reverse of the claim (and of the comment in
    the source). *)
Theorem refresh_delay_is_inverted backoff :
  fetchOffer backoff (sessionExpiredOnce None) 1 0 0 0
  = (Resolved (Some offer1),
     [GetOffer 1; GetWebSession true; Delay (backoff 1%nat); GetOffer 1])
  ∧ fetchOffer backoff (sessionExpiredOnce (Some timeout)) 1 0 0 0
  = (Resolved (Some offer1), [GetOffer 1; GetWebSession true; Delay 0; GetOffer 1]).
Proof.
  split.
  - rewrite (fetchOffer_session_expired _ _ _ _ _ _ notLoggedIn) by (done || lia).
    by rewrite (fetchOffer_active _ _ _ _ _ _ offer1).
  - rewrite (fetchOffer_session_expired _ _ _ _ _ _ notLoggedIn) by (done || lia).
    by rewrite (fetchOffer_active _ _ _ _ _ _ offer1).
Qed.

(** C4.  If the Gateway fails with a transient error N times and then
    returns an Active offer, a fetch started at attempt 0 resolves that
    offer after exactly N+1 calls of getOffer when N ≤ 5; when N > 5 it
    is rejected with the error of the sixth call, the last error the
    Gateway gave, after exactly 6 calls. *)
Theorem fetch_retries_transient backoff gw offerId offer N j :
  (∀ i, (i < N)%nat → ∃ err, getOffer gw i offerId = inl err ∧ transient err) →
  getOffer gw N offerId = inr offer → TradeOffer.state offer = Active →
  ((N ≤ 5)%nat →
     (fetchOffer backoff gw offerId 0 0 j).1 = Resolved (Some offer)
     ∧ getOfferCalls (fetchOffer backoff gw offerId 0 0 j).2 = S N)
  ∧ ((5 < N)%nat →
     ∃ err, getOffer gw 5%nat offerId = inl err
       ∧ (fetchOffer backoff gw offerId 0 0 j).1 = Rejected err
       ∧ getOfferCalls (fetchOffer backoff gw offerId 0 0 j).2 = 6%nat).
Proof.
  intros Hfail Hok Hact. split; intros HN.
  - by apply (fetch_succeeds_after backoff gw offerId offer N j Hfail Hok Hact N 0%nat).
  - by apply (fetch_exhausts backoff gw offerId N j Hfail 5%nat 0%nat).
Qed.

Lemma fetch_retries_transient_witness :
  ((5 ≤ 5)%nat →
     (fetchOffer doubling (failsThenSucceeds 5) 1 0 0 0).1 = Resolved (Some offer1)
     ∧ getOfferCalls (fetchOffer doubling (failsThenSucceeds 5) 1 0 0 0).2 = 6%nat)
  ∧ ((5 < 5)%nat →
     ∃ err, getOffer (failsThenSucceeds 5) 5%nat 1 = inl err
       ∧ (fetchOffer doubling (failsThenSucceeds 5) 1 0 0 0).1 = Rejected err
       ∧ getOfferCalls (fetchOffer doubling (failsThenSucceeds 5) 1 0 0 0).2 = 6%nat).
Proof.
  apply (fetch_retries_transient doubling (failsThenSucceeds 5) 1 offer1 5 0).
  - intros i Hi. exists timeout. split.
    + simpl. destruct (Nat.ltb_spec i 5); [reflexivity|lia].
    + repeat split; discriminate.
  - reflexivity.
  - reflexivity.
Defined.

(** ** The metadata bags *)

Lemma data_get_same offerId key s s' :
  offerData s' = offerData s → data_get offerId key s' = data_get offerId key s.
Proof. unfold data_get. by intros ->. Qed.

Lemma data_get_data_set_eq offerId key v s :
  data_get offerId key (data_set offerId key v s) = v.
Proof.
  unfold data_get, data_set. simpl. rewrite lookup_insert_eq.
  by rewrite lookup_insert_eq.
Qed.

Lemma data_get_data_set_ne offerId key v offerId' key' s :
  key ≠ key' → data_get offerId' key' (data_set offerId key v s) = data_get offerId' key' s.
Proof.
  intros Hne. unfold data_get, data_set. simpl.
  destruct (decide (offerId = offerId')) as [->|Hid].
  - rewrite lookup_insert_eq. rewrite lookup_insert_ne by done.
    destruct (offerData s !! offerId'); simpl; [done|]. by rewrite lookup_empty.
  - by rewrite lookup_insert_ne.
Qed.

Lemma handleTimeStamp_data_set offerId key v offerId' s :
  key ≠ "handleTimeStamp" →
  handleTimeStamp offerId' (data_set offerId key v s) = handleTimeStamp offerId' s.
Proof. apply data_get_data_set_ne. Qed.

Lemma handleTimeStamp_same offerId s s' :
  offerData s' = offerData s → handleTimeStamp offerId s' = handleTimeStamp offerId s.
Proof. apply data_get_same. Qed.

Lemma handleTimeStamp_emit i e s : handleTimeStamp i (emit e s) = handleTimeStamp i s.
Proof. done. Qed.

Lemma handleTimeStamp_await i t s : handleTimeStamp i (await t s) = handleTimeStamp i s.
Proof. done. Qed.

Lemma handleTimeStamp_spawn i b s : handleTimeStamp i (spawn b s) = handleTimeStamp i s.
Proof. done. Qed.

Lemma handleTimeStamp_set_processingOffer i v s :
  handleTimeStamp i (set_processingOffer v s) = handleTimeStamp i s.
Proof. done. Qed.

Lemma handleTimeStamp_set_receivedOffers i v s :
  handleTimeStamp i (set_receivedOffers v s) = handleTimeStamp i s.
Proof. done. Qed.

Lemma handleTimeStamp_set_pollCount i v s :
  handleTimeStamp i (set_pollCount v s) = handleTimeStamp i s.
Proof. done. Qed.

Lemma handleTimeStamp_set_inFlight i v s :
  handleTimeStamp i (set_inFlight v s) = handleTimeStamp i s.
Proof. done. Qed.

Lemma handleTimeStamp_set_detached i v s :
  handleTimeStamp i (set_detached v s) = handleTimeStamp i s.
Proof. done. Qed.

(** Rewrites [handleTimeStamp] of a straight-line update down to the
    state it started from. *)
Ltac unstamp :=
  repeat first
    [ rewrite handleTimeStamp_data_set by discriminate
    | rewrite handleTimeStamp_emit
    | rewrite handleTimeStamp_await
    | rewrite handleTimeStamp_spawn
    | rewrite handleTimeStamp_set_processingOffer
    | rewrite handleTimeStamp_set_receivedOffers
    | rewrite handleTimeStamp_set_pollCount
    | rewrite handleTimeStamp_set_inFlight
    | rewrite handleTimeStamp_set_detached ].

Lemma dequeueOffer_offerData offerId s : offerData (dequeueOffer offerId s) = offerData s.
Proof. unfold dequeueOffer. cbv zeta. by case_decide. Qed.

Lemma processNextOffer_unstamped i s :
  handleTimeStamp i (processNextOffer s) = handleTimeStamp i s.
Proof.
  destruct (processingOffer s) eqn:Hp.
  { by rewrite processNextOffer_idle by auto. }
  destruct (receivedOffers s) as [|offerId rest] eqn:Hq.
  { by rewrite processNextOffer_idle by auto. }
  rewrite (processNextOffer_starts s offerId rest) by done. by unstamp.
Qed.

Lemma finishProcessingOffer_unstamped i offerId s :
  handleTimeStamp i (finishProcessingOffer offerId s) = handleTimeStamp i s.
Proof.
  unfold finishProcessingOffer. cbv zeta. rewrite processNextOffer_unstamped. unstamp.
  apply handleTimeStamp_same, dequeueOffer_offerData.
Qed.

Lemma handlerProcessOffer_unstamped i now offer s :
  handleTimeStamp i (handlerProcessOffer now offer s) = handleTimeStamp i s.
Proof. unfold handlerProcessOffer. cbv zeta. by unstamp. Qed.

Lemma enqueueOffer_unstamped i now offer s :
  handleTimeStamp i (enqueueOffer now offer s) = handleTimeStamp i s.
Proof.
  unfold enqueueOffer. case_decide; [|done]. cbv zeta. case_decide.
  - rewrite handlerProcessOffer_unstamped. by unstamp.
  - rewrite processNextOffer_unstamped. by unstamp.
Qed.

Lemma fetchOfferCallback_unstamped i now offerId r s :
  handleTimeStamp i (fetchOfferCallback now offerId r s) = handleTimeStamp i s.
Proof.
  unfold fetchOfferCallback. destruct r as [err|[offer|]]; cbv zeta;
    rewrite ?finishProcessingOffer_unstamped, ?handlerProcessOffer_unstamped; [|done..].
  case_decide; by unstamp.
Qed.

Lemma decisionCallback_unstamped i now offer start r s :
  handleTimeStamp i (decisionCallback now offer start r s) = handleTimeStamp i s.
Proof.
  unfold decisionCallback, acceptOffer, declineOffer.
  destruct r as [err|response]; cbv zeta; repeat case_decide; by unstamp.
Qed.

Lemma actionCallback_unstamped i now offer response start r s :
  handleTimeStamp i (actionCallback now offer response start r s) = handleTimeStamp i s.
Proof.
  unfold actionCallback, acceptConfirmation.
  destruct r as [err|status]; cbv zeta; [by unstamp|].
  rewrite finishProcessingOffer_unstamped. repeat case_decide; by unstamp.
Qed.

Lemma onNewOffer_unstamped i now offer s :
  handleTimeStamp i (onNewOffer now offer s) = handleTimeStamp i s.
Proof.
  unfold onNewOffer. destruct (TradeOffer.isGlitched offer); [by unstamp|].
  cbv zeta. rewrite enqueueOffer_unstamped. unstamp.
  rewrite (handleTimeStamp_same _ (emit (Log "info" MsgReceivedOffer) s))
    by apply reserve_all_frame.
  by unstamp.
Qed.

Lemma onOfferList_unstamped i now filter sent received s :
  handleTimeStamp i (onOfferList now filter sent received s) = handleTimeStamp i s.
Proof.
  unfold onOfferList. cbv zeta.
  rewrite (forEach_preserves (handleTimeStamp i))
    by (intros; apply enqueueOffer_unstamped).
  destruct (_ && _); by unstamp.
Qed.

Lemma onOfferChanged_unstamped i now offer oldState s :
  handleTimeStamp i (onOfferChanged now offer oldState s) = handleTimeStamp i s.
Proof.
  unfold onOfferChanged. cbv zeta.
  set (s0 := emit _ s).
  assert (handleTimeStamp i s0 = handleTimeStamp i s) as <- by (subst s0; by unstamp).
  match goal with |- handleTimeStamp _ (if _ then _ else ?e) = _ =>
    match e with context [forEach ?l ?f ?x] => set (s1 := x) end end.
  assert (handleTimeStamp i s1 = handleTimeStamp i s0) as <-.
  { subst s1. destruct (decide (_ ∨ _)).
    - destruct (_ && _); unstamp; apply handleTimeStamp_same, reserve_all_frame.
    - unstamp. apply handleTimeStamp_same, release_all_frame. }
  destruct (decide (_ ∧ _)); unstamp; [done|].
  apply handleTimeStamp_same. by apply (forEach_preserves offerData).
Qed.

Lemma step_unstamped i now e s s' :
  step now e s = Some s' → handleTimeStamp i s' = handleTimeStamp i s.
Proof.
  destruct e; simpl.
  - intros [= <-]. apply onNewOffer_unstamped.
  - intros [= <-]. apply onOfferList_unstamped.
  - intros [= <-]. apply onOfferChanged_unstamped.
  - unfold settle. case_decide; [|done]. intros [= <-].
    rewrite fetchOfferCallback_unstamped. by unstamp.
  - unfold settle. case_decide; [|done]. intros [= <-].
    rewrite decisionCallback_unstamped. by unstamp.
  - unfold settle. case_decide; [|done]. intros [= <-].
    rewrite actionCallback_unstamped. by unstamp.
  - unfold settle_detached. case_decide; [|done]. intros [= <-].
    unfold inventoryFetchCallback. by unstamp.
  - unfold settle_detached. case_decide; [|done]. intros [= <-].
    unfold confirmationCallback. cbv zeta. destruct err; by unstamp.
Qed.

Lemma run_unstamped i evs s s' :
  run evs s = Some s' → handleTimeStamp i s' = handleTimeStamp i s.
Proof.
  revert s. induction evs as [|[now e] evs IH]; intros s; simpl.
  - by intros [= <-].
  - destruct (step now e s) as [s1|] eqn:Hstep; [|done].
    intros Hrun. rewrite (IH _ Hrun). by apply (step_unstamped i now e).
Qed.

Lemma reachable_unstamped i interval evs s :
  run evs (initial interval) = Some s → handleTimeStamp i s = VUndefined.
Proof. intros Hrun. by rewrite (run_unstamped i evs _ _ Hrun). Qed.

(** ** The state-change reactor *)

(** What [onOfferChanged] emits for an offer that left the active family. *)
Lemma onOfferChanged_effects_inactive now offer oldState s :
  ¬ activeFamily (TradeOffer.state offer) →
  let processTime :=
    minus (Num now) (ToNumber (handleTimeStamp (TradeOffer.id offer) s)) in
  effects (onOfferChanged now offer oldState s)
  = effects s
    ++ [Log "verbose" (MsgStateChanged oldState (TradeOffer.state offer));
        Log "debug"
          (MsgTook (if isNaN processTime then TookUnknown else TookMs processTime)
             (TradeOffer.id offer) (TradeOffer.state offer) processTime)]
    ++ (if decide (TradeOffer.state offer ≠ Accepted ∧ TradeOffer.state offer ≠ InEscrow)
        then [HandlerOnTradeOfferChanged offer oldState]
        else map (λ item, InventoryRemoveItem (EconItem.assetid item))
               (TradeOffer.itemsToGive offer) ++ [InventoryFetch]).
Proof.
  intros Hact processTime.
  unfold onOfferChanged. cbv zeta.
  destruct (decide (_ ∨ _)) as [Hy|_]; [by destruct Hact|].
  set (s0 := emit _ s).
  set (s1 := forEach _ _ s0).
  assert (effects s1 = effects s ++ [Log "verbose"
            (MsgStateChanged oldState (TradeOffer.state offer))]) as He1.
  { subst s1. by destruct (release_all_frame (TradeOffer.itemsToGive offer)
      EconItem.assetid s0) as (_ & -> & _). }
  set (s3 := data_set _ "finishTimestamp" _ _).
  assert (data_get (TradeOffer.id offer) "handleTimeStamp" s3
          = handleTimeStamp (TradeOffer.id offer) s) as ->.
  { change (handleTimeStamp (TradeOffer.id offer) s3
            = handleTimeStamp (TradeOffer.id offer) s).
    subst s3. unstamp. subst s1.
    rewrite (handleTimeStamp_same _ s0) by apply release_all_frame.
    subst s0. by unstamp. }
  fold processTime.
  destruct (decide (_ ∧ _)); simpl.
  - rewrite He1. by rewrite <- !app_assoc.
  - rewrite remove_all_effects. simpl. rewrite He1. by rewrite <- !app_assoc.
Qed.

(** What it emits for an offer in the active family. *)
Lemma onOfferChanged_effects_active now offer oldState s :
  activeFamily (TradeOffer.state offer) →
  effects (onOfferChanged now offer oldState s)
  = effects s
    ++ [Log "verbose" (MsgStateChanged oldState (TradeOffer.state offer));
        HandlerOnTradeOfferChanged offer oldState].
Proof.
  intros Hact. unfold onOfferChanged. cbv zeta.
  destruct (decide (_ ∨ _)) as [_|Hn]; [|by destruct Hn].
  assert (TradeOffer.state offer ≠ Accepted ∧ TradeOffer.state offer ≠ InEscrow) as Hna.
  { destruct Hact as [-> | ->]; done. }
  destruct (decide (_ ∧ _)) as [_|Hn]; [|by destruct Hn].
  set (s0 := emit _ s).
  transitivity (effects (forEach (TradeOffer.itemsToGive offer)
      (λ item, setItemInTrade (EconItem.id item)) s0)
      ++ [HandlerOnTradeOfferChanged offer oldState]).
  - by destruct (_ && _).
  - destruct (reserve_all_frame (TradeOffer.itemsToGive offer) EconItem.id s0)
      as (_ & -> & _).
    subst s0. simpl. by rewrite <- app_assoc.
Qed.

Lemma onOfferChanged_emits now offer oldState s :
  emits notTradeDone s (onOfferChanged now offer oldState s).
Proof.
  assert (∀ level msg, notTradeDone (Log level msg)) as Hlog.
  { intros. by apply quiet_notTradeDone. }
  destruct (decide (activeFamily (TradeOffer.state offer))) as [Hact|Hact].
  - eapply emits_list; [by apply onOfferChanged_effects_active|].
    assert (TradeOffer.state offer ≠ Accepted ∧ TradeOffer.state offer ≠ InEscrow) as Hna.
    { destruct Hact as [-> | ->]; done. }
    apply Forall_cons. split; [apply Hlog|].
    apply Forall_cons. split; [|apply Forall_nil_2].
    by intros ? ? [= <- <-].
  - eapply emits_list; [by apply onOfferChanged_effects_inactive|].
    apply Forall_app. split.
    { apply Forall_cons. split; [apply Hlog|].
      apply Forall_cons. split; [apply Hlog|apply Forall_nil_2]. }
    case_decide as Hna.
    + apply Forall_cons. split; [|apply Forall_nil_2]. by intros ? ? [= <- <-].
    + apply Forall_app. split.
      * apply Forall_forall. intros e (item & -> & _)%list_elem_of_fmap.
        by apply quiet_notTradeDone.
      * apply Forall_cons. split; [|apply Forall_nil_2]. by apply quiet_notTradeDone.
Qed.

Lemma step_emits now e s s' :
  step now e s = Some s' →
  emits notTradeDone s s'
  ∨ ∃ offer oldState, e = InventoryFetchSettled offer oldState
      ∧ InventoryFetching offer oldState ∈ detached s
      ∧ effects s' = effects s ++ [HandlerOnTradeOfferChanged offer oldState].
Proof.
  pose proof quiet_notTradeDone as Hq.
  destruct e; simpl.
  - intros [= <-]. left. eapply emits_weaken; [done|]. apply onNewOffer_quiet.
  - intros [= <-]. left. eapply emits_weaken; [done|]. apply onOfferList_quiet.
  - intros [= <-]. left. apply onOfferChanged_emits.
  - unfold settle. case_decide; [|done]. intros [= <-]. left.
    eapply emits_weaken; [done|].
    eapply emits_trans; [|apply fetchOfferCallback_quiet]. by apply emits_same.
  - unfold settle. case_decide; [|done]. intros [= <-]. left.
    eapply emits_weaken; [done|].
    eapply emits_trans; [|apply decisionCallback_quiet]. by apply emits_same.
  - unfold settle. case_decide; [|done]. intros [= <-]. left.
    eapply emits_weaken; [done|].
    eapply emits_trans; [|apply actionCallback_quiet]. by apply emits_same.
  - unfold settle_detached. case_decide; [|done]. intros [= <-]. right.
    by exists offer, oldState.
  - unfold settle_detached. case_decide; [|done]. intros [= <-]. left.
    eapply emits_weaken; [done|].
    eapply emits_trans; [|apply confirmationCallback_quiet]. by apply emits_same.
Qed.

Lemma onOfferChanged_detached_done now offer oldState s :
  TradeOffer.state offer = Accepted ∨ TradeOffer.state offer = InEscrow →
  detached (onOfferChanged now offer oldState s)
  = detached s ++ [InventoryFetching offer oldState].
Proof.
  intros Hdone. unfold onOfferChanged. cbv zeta.
  destruct (decide (_ ∨ _)) as [[Hy|Hy]|_]; [destruct Hdone; congruence..|].
  destruct (decide (_ ∧ _)) as [[Hn1 Hn2]|_]; [by destruct Hdone|].
  simpl. rewrite (forEach_preserves detached) by done. simpl.
  by rewrite (forEach_preserves detached) by (intros; apply unsetItemInTrade_frame).
Qed.

Lemma step_inventory_settled now offer oldState s :
  InventoryFetching offer oldState ∈ detached s →
  ∃ s', step now (InventoryFetchSettled offer oldState) s = Some s'
    ∧ emitted s s' = [HandlerOnTradeOfferChanged offer oldState].
Proof.
  intros Hin. unfold step, settle_detached. rewrite decide_True by done.
  eexists. split; [reflexivity|]. by apply emitted_list.
Qed.

(** C7.  In a state reached from the initial one, let an offer whose
    items carry the same string as id and as asset id go through one or
    more notifications of a state in the active family, and then through
    one notification of a state outside it.  After the first series every
    item given is reserved exactly once, however long the series; after
    the last notification it is not reserved any more. *)
Theorem reservation_round_trip interval evs s offer actives leaving item :
  run evs (initial interval) = Some s →
  Forall EconItem.wf (TradeOffer.itemsToGive offer) →
  actives ≠ [] → Forall (λ c, activeFamily c.1.2) actives →
  ¬ activeFamily leaving.1.2 →
  item ∈ TradeOffer.itemsToGive offer →
  reservations (EconItem.assetid item) (notify offer actives s) = 1%nat
  ∧ reservations (EconItem.assetid item) (notify offer (actives ++ [leaving]) s) = 0%nat.
Proof.
  intros Hrun Hwf Hne Hact Hleave Hitem.
  assert (NoDup (itemsInTrade s)) as Hnd.
  { apply (run_reserved_NoDup evs (initial interval)); [constructor|done]. }
  pose proof (notify_active_NoDup offer actives s Hact Hnd) as Hnd1.
  assert (EconItem.assetid item ∈ itemsInTrade (notify offer actives s)) as Hin.
  { destruct actives as [|[[now st] old] rest]; [done|].
    apply Forall_cons in Hact as [Hfirst Hrest].
    unfold notify. rewrite forEach_cons.
    apply (notify_active_keeps offer rest); [done|].
    rewrite onOfferChanged_items_active by done. simpl.
    rewrite Forall_forall in Hwf. rewrite <- (Hwf item Hitem).
    by apply (reserve_all_reserved _ EconItem.id). }
  split.
  - unfold reservations. rewrite occurrences_NoDup by done. by rewrite decide_True by done.
  - unfold notify. rewrite forEach_app. fold (notify offer actives s).
    destruct leaving as [[now st] old]. simpl.
    unfold reservations. rewrite occurrences_NoDup.
    + rewrite decide_False; [done|].
      rewrite onOfferChanged_items_inactive by done. simpl.
      by apply (release_all_released _ EconItem.assetid).
    + rewrite onOfferChanged_items_inactive by done. by apply release_all_NoDup.
Qed.

Lemma reservation_round_trip_witness :
  reservations (EconItem.assetid itemA)
    (notify offer1 [(10, Active, Invalid); (11, CreatedNeedsConfirmation, Active);
                    (12, Active, CreatedNeedsConfirmation)] afterTwoWaiting) = 1%nat
  ∧ reservations (EconItem.assetid itemA)
      (notify offer1 ([(10, Active, Invalid); (11, CreatedNeedsConfirmation, Active);
                       (12, Active, CreatedNeedsConfirmation)] ++ [(20, Accepted, Active)])
         afterTwoWaiting) = 0%nat.
Proof.
  apply (reservation_round_trip 30000 twoWaiting).
  - vm_compute. reflexivity.
  - repeat constructor.
  - discriminate.
  - repeat (apply Forall_cons; split; [first [by left | by right]|]).
    apply Forall_nil_2.
  - simpl. intros [H|H]; discriminate H.
  - simpl. apply list_elem_of_here.
Defined.

(** C8.  When the new state of an offer is Accepted or InEscrow, the
    reactor emits, after its two log lines, the removal of every item
    given from the inventory and then the refresh of the inventory, and
    leaves that refresh pending; it does not notify the handler.  When
    the refresh settles the handler is notified of the transition.  No
    other transition of the system notifies the handler of a transition
    of that offer: the notification only follows the settling of a
    refresh that was pending. *)
Theorem handler_notified_after_refresh now offer oldState s :
  TradeOffer.state offer = Accepted ∨ TradeOffer.state offer = InEscrow →
  (∃ shown processTime,
     emitted s (onOfferChanged now offer oldState s)
     = [Log "verbose" (MsgStateChanged oldState (TradeOffer.state offer));
        Log "debug" (MsgTook shown (TradeOffer.id offer) (TradeOffer.state offer)
                       processTime)]
       ++ map (λ item, InventoryRemoveItem (EconItem.assetid item))
            (TradeOffer.itemsToGive offer)
       ++ [InventoryFetch])
  ∧ detached (onOfferChanged now offer oldState s)
    = detached s ++ [InventoryFetching offer oldState]
  ∧ (∀ now', ∃ s'',
       step now' (InventoryFetchSettled offer oldState)
         (onOfferChanged now offer oldState s) = Some s''
       ∧ emitted (onOfferChanged now offer oldState s) s''
         = [HandlerOnTradeOfferChanged offer oldState])
  ∧ (∀ now' e t t', step now' e t = Some t' →
       HandlerOnTradeOfferChanged offer oldState ∈ emitted t t' →
       e = InventoryFetchSettled offer oldState
       ∧ InventoryFetching offer oldState ∈ detached t).
Proof.
  intros Hdone.
  assert (¬ activeFamily (TradeOffer.state offer)) as Hact.
  { intros [H|H]; destruct Hdone; congruence. }
  split; [|split; [|split]].
  - eexists _, _. apply emitted_list.
    rewrite onOfferChanged_effects_inactive by done. cbv zeta.
    destruct (decide (_ ∧ _)) as [[Hn1 Hn2]|_]; [by destruct Hdone|]. done.
  - by apply onOfferChanged_detached_done.
  - intros now'. apply step_inventory_settled.
    rewrite onOfferChanged_detached_done by done.
    apply elem_of_app. right. apply list_elem_of_here.
  - intros now' e t t' Hstep Hin.
    destruct (step_emits now' e t t' Hstep) as [Hquiet|(o & old & -> & Hpending & He)].
    + apply emits_emitted in Hquiet. rewrite Forall_forall in Hquiet.
      destruct (Hquiet _ Hin offer oldState eq_refl) as [Hn1 Hn2].
      by destruct Hdone.
    + rewrite (emitted_list _ _ _ He) in Hin.
      apply list_elem_of_singleton in Hin. by injection Hin as <- <-.
Qed.

Lemma handler_notified_after_refresh_witness :
  (∃ shown processTime,
     emitted afterTwoWaiting
       (onOfferChanged 20 (inState Accepted offer1) Active afterTwoWaiting)
     = [Log "verbose" (MsgStateChanged Active (TradeOffer.state (inState Accepted offer1)));
        Log "debug" (MsgTook shown (TradeOffer.id (inState Accepted offer1))
                       (TradeOffer.state (inState Accepted offer1)) processTime)]
       ++ map (λ item, InventoryRemoveItem (EconItem.assetid item))
            (TradeOffer.itemsToGive (inState Accepted offer1))
       ++ [InventoryFetch])
  ∧ detached (onOfferChanged 20 (inState Accepted offer1) Active afterTwoWaiting)
    = detached afterTwoWaiting ++ [InventoryFetching (inState Accepted offer1) Active]
  ∧ (∀ now', ∃ s'',
       step now' (InventoryFetchSettled (inState Accepted offer1) Active)
         (onOfferChanged 20 (inState Accepted offer1) Active afterTwoWaiting) = Some s''
       ∧ emitted (onOfferChanged 20 (inState Accepted offer1) Active afterTwoWaiting) s''
         = [HandlerOnTradeOfferChanged (inState Accepted offer1) Active])
  ∧ (∀ now' e t t', step now' e t = Some t' →
       HandlerOnTradeOfferChanged (inState Accepted offer1) Active ∈ emitted t t' →
       e = InventoryFetchSettled (inState Accepted offer1) Active
       ∧ InventoryFetching (inState Accepted offer1) Active ∈ detached t).
Proof.
  apply (handler_notified_after_refresh 20 (inState Accepted offer1) Active afterTwoWaiting).
  left. reflexivity.
Defined.

(** The round trip of C7 rests on the two identifiers of an item being
    the same string: the reactor reserves under [id] and releases under
    [assetid]. *)
Lemma reservation_needs_matching_ids :
  itemsInTrade
    (notify offerMismatched [(10, Active, Invalid); (20, Accepted, Active)]
       (initial 30000))
  = ["x1"].
Proof. vm_compute. reflexivity. Qed.

(** C9, what the code does.  The Decision Pipeline stamps the start of
    the handling under the key handleTimestamp, and the reactor reads it
    under the key handleTimeStamp, which nothing writes.  So in every
    reachable state, also when the start of the handling was stamped, a
    notification that moves an offer out of the active family logs the
    duration as unknown. *)
Theorem duration_reported_unknown interval evs s start now offer oldState :
  run evs (initial interval) = Some s →
  handleTimestamp (TradeOffer.id offer) s = VNum start →
  ¬ activeFamily (TradeOffer.state offer) →
  handleTimestamp (TradeOffer.id offer) (handlerProcessOffer start offer s) = VNum start
  ∧ Log "debug" (MsgTook TookUnknown (TradeOffer.id offer) (TradeOffer.state offer) NaN)
      ∈ emitted s (onOfferChanged now offer oldState s).
Proof.
  intros Hrun Hstamped Hact. split.
  - unfold handlerProcessOffer, handleTimestamp. cbv zeta.
    rewrite (data_get_same _ _ (data_set (TradeOffer.id offer) "handleTimestamp"
      (VNum start) (emit (Log "debug" MsgGivingOfferToHandler) s))) by done.
    apply data_get_data_set_eq.
  - rewrite (emitted_list _ _ _ (onOfferChanged_effects_inactive now offer oldState s Hact)).
    rewrite (reachable_unstamped _ interval evs s Hrun). simpl.
    apply list_elem_of_further, list_elem_of_here.
Qed.

Lemma duration_reported_unknown_witness :
  handleTimestamp (TradeOffer.id (inState Accepted offer1))
    (handlerProcessOffer 0 (inState Accepted offer1) afterTwoWaiting) = VNum 0
  ∧ Log "debug" (MsgTook TookUnknown (TradeOffer.id (inState Accepted offer1))
                   (TradeOffer.state (inState Accepted offer1)) NaN)
      ∈ emitted afterTwoWaiting
          (onOfferChanged 20 (inState Accepted offer1) Active afterTwoWaiting).
Proof.
  apply (duration_reported_unknown 30000 twoWaiting).
  - vm_compute. reflexivity.
  - vm_compute. reflexivity.
  - simpl. intros [H|H]; discriminate H.
Defined.

Lemma processNextOffer_emitted s :
  emitted s (processNextOffer s) = []
  ∨ ∃ offerId, head (receivedOffers s) = Some offerId
      ∧ emitted s (processNextOffer s)
        = [Log "verbose" (MsgHandlingOffer offerId); FetchOffer offerId].
Proof.
  destruct (processingOffer s) eqn:Hp.
  { left. rewrite processNextOffer_idle by auto. apply emitted_list. by rewrite app_nil_r. }
  destruct (receivedOffers s) as [|offerId rest] eqn:Hq.
  { left. rewrite processNextOffer_idle by auto. apply emitted_list. by rewrite app_nil_r. }
  right. exists offerId. split; [done|].
  rewrite (processNextOffer_starts s offerId rest) by done.
  apply emitted_list. simpl. by rewrite <- app_assoc.
Qed.

(** C10.  In a reachable state with an empty queue, enqueueing an offer
    makes it the only entry, sets the processing flag and hands the very
    offer object of the notification to the decision of the handler: the
    only effects are the log line and the call of the handler, and the
    only pending operation is that decision, so no fetch is made for it,
    whatever the state of the offer.  A fetch is only ever pending for
    the id at the front of the queue, and it is only started by an
    advance, for the id at the front. *)
Theorem first_offer_skips_fetcher interval evs s now offer :
  run evs (initial interval) = Some s →
  (receivedOffers s = [] →
     receivedOffers (enqueueOffer now offer s) = [TradeOffer.id offer]
     ∧ processingOffer (enqueueOffer now offer s) = true
     ∧ inFlight (enqueueOffer now offer s) = [HandlerDeciding offer now]
     ∧ emitted s (enqueueOffer now offer s)
       = [Log "debug" MsgGivingOfferToHandler; HandlerOnNewTradeOffer offer])
  ∧ (∀ offerId, FetchingOffer offerId ∈ inFlight s →
       head (receivedOffers s) = Some offerId)
  ∧ (emitted s (processNextOffer s) = []
     ∨ ∃ offerId, head (receivedOffers s) = Some offerId
         ∧ emitted s (processNextOffer s)
           = [Log "verbose" (MsgHandlingOffer offerId); FetchOffer offerId]).
Proof.
  intros Hrun.
  pose proof (run_consistent evs _ _ (consistent_initial interval) Hrun) as Hs.
  split; [|split; [apply Hs | apply processNextOffer_emitted]].
  intros Hq. rewrite enqueueOffer_first by done.
  split; [done|]. split; [done|]. split.
  - simpl. by rewrite (consistent_empty s Hs Hq).
  - apply emitted_list. simpl. by rewrite <- app_assoc.
Qed.

Lemma first_offer_skips_fetcher_witness :
  (receivedOffers (initial 30000) = [] →
     receivedOffers (enqueueOffer 5 (inState Declined offer1) (initial 30000))
     = [TradeOffer.id (inState Declined offer1)]
     ∧ processingOffer (enqueueOffer 5 (inState Declined offer1) (initial 30000)) = true
     ∧ inFlight (enqueueOffer 5 (inState Declined offer1) (initial 30000))
       = [HandlerDeciding (inState Declined offer1) 5]
     ∧ emitted (initial 30000) (enqueueOffer 5 (inState Declined offer1) (initial 30000))
       = [Log "debug" MsgGivingOfferToHandler;
          HandlerOnNewTradeOffer (inState Declined offer1)])
  ∧ (∀ offerId, FetchingOffer offerId ∈ inFlight (initial 30000) →
       head (receivedOffers (initial 30000)) = Some offerId)
  ∧ (emitted (initial 30000) (processNextOffer (initial 30000)) = []
     ∨ ∃ offerId, head (receivedOffers (initial 30000)) = Some offerId
         ∧ emitted (initial 30000) (processNextOffer (initial 30000))
           = [Log "verbose" (MsgHandlingOffer offerId); FetchOffer offerId]).
Proof.
  apply (first_offer_skips_fetcher 30000 []). reflexivity.
Defined.

(** Six transient failures in a row: the sixth call is the last one. *)
Lemma fetch_six_failures :
  fetchOffer doubling (failsThenSucceeds 6) 1 0 0 0
  = (Rejected timeout,
     [GetOffer 1; Delay 2000; GetOffer 1; Delay 4000; GetOffer 1; Delay 8000;
      GetOffer 1; Delay 16000; GetOffer 1; Delay 32000; GetOffer 1]).
Proof. vm_compute. reflexivity. Qed.

(** Inside the callback of a failed fetch the id is in the queue twice,
    between the push and the removal of its first occurrence; the
    callback ends with one copy, at the tail. *)
Lemma requeue_is_push_then_remove (O1 O2 : Z) :
  O1 ≠ O2 →
  push O1 [O1; O2] = [O1; O2; O1] ∧ removeFirst O1 (push O1 [O1; O2]) = [O2; O1].
Proof. intros Hne. split; [done|]. unfold push. simpl. by rewrite removeFirst_head. Qed.

(** * Further properties *)

(** ** Reserving and releasing *)

Lemma set_itemsInTrade_same s : set_itemsInTrade (itemsInTrade s) s = s.
Proof. by destruct s. Qed.

Lemma set_itemsInTrade_twice l1 l2 s :
  set_itemsInTrade l1 (set_itemsInTrade l2 s) = set_itemsInTrade l1 s.
Proof. done. Qed.

Lemma setItemInTrade_state a s :
  setItemInTrade a s
  = set_itemsInTrade
      (if decide (a ∈ itemsInTrade s) then itemsInTrade s else push a (itemsInTrade s)) s.
Proof.
  unfold setItemInTrade. cbv zeta.
  destruct (decide (indexOf a (itemsInTrade s) = -1)) as [Hi|Hi];
    rewrite indexOf_absent in Hi.
  - by rewrite decide_False.
  - rewrite decide_True; [by rewrite set_itemsInTrade_same|].
    by destruct (decide (a ∈ itemsInTrade s)).
Qed.

Lemma unsetItemInTrade_state a s :
  unsetItemInTrade a s = set_itemsInTrade (removeFirst a (itemsInTrade s)) s.
Proof.
  unfold unsetItemInTrade, removeFirst. cbv zeta.
  case_decide; [done|]. by rewrite set_itemsInTrade_same.
Qed.

(** X1.  On a reservation array without duplicates, reserving an asset
    id twice is reserving it once, releasing it twice is releasing it
    once, and releasing after reserving is releasing: after a reserve the
    id is reserved, after a release it is not. *)
Theorem reserve_release_algebra a s :
  NoDup (itemsInTrade s) →
  setItemInTrade a (setItemInTrade a s) = setItemInTrade a s
  ∧ unsetItemInTrade a (unsetItemInTrade a s) = unsetItemInTrade a s
  ∧ unsetItemInTrade a (setItemInTrade a s) = unsetItemInTrade a s
  ∧ a ∈ itemsInTrade (setItemInTrade a s)
  ∧ a ∉ itemsInTrade (unsetItemInTrade a s).
Proof.
  intros Hnd. split; [|split; [|split; [|split]]].
  - rewrite (setItemInTrade_state a (setItemInTrade a s)).
    rewrite decide_True by apply setItemInTrade_reserved.
    apply set_itemsInTrade_same.
  - rewrite (unsetItemInTrade_state a (unsetItemInTrade a s)).
    rewrite removeFirst_absent by by apply unsetItemInTrade_released.
    apply set_itemsInTrade_same.
  - rewrite !unsetItemInTrade_state, setItemInTrade_state. simpl.
    case_decide as Hin; [done|]. by rewrite removeFirst_push_fresh, removeFirst_absent.
  - apply setItemInTrade_reserved.
  - by apply unsetItemInTrade_released.
Qed.

Lemma reserve_release_algebra_witness :
  setItemInTrade "a1" (setItemInTrade "a1" afterTwoWaiting)
  = setItemInTrade "a1" afterTwoWaiting
  ∧ unsetItemInTrade "a1" (unsetItemInTrade "a1" afterTwoWaiting)
    = unsetItemInTrade "a1" afterTwoWaiting
  ∧ unsetItemInTrade "a1" (setItemInTrade "a1" afterTwoWaiting)
    = unsetItemInTrade "a1" afterTwoWaiting
  ∧ "a1" ∈ itemsInTrade (setItemInTrade "a1" afterTwoWaiting)
  ∧ "a1" ∉ itemsInTrade (unsetItemInTrade "a1" afterTwoWaiting).
Proof.
  apply (reserve_release_algebra "a1" afterTwoWaiting).
  vm_compute. apply NoDup_singleton.
Defined.

(** ** Poll data *)

Lemma reserve_all_elem {A} (l : list A) (f : A → string) a s :
  a ∈ itemsInTrade (forEach l (λ x, setItemInTrade (f x)) s)
  ↔ a ∈ itemsInTrade s ∨ a ∈ map f l.
Proof.
  revert s. induction l as [|x l IH]; intros s.
  - simpl. split; [by left|]. intros [?|Hin]; [done|]. by apply elem_of_nil in Hin.
  - rewrite forEach_cons, IH, setItemInTrade_items. simpl. rewrite elem_of_cons.
    case_decide as Hx.
    + split; [tauto|]. intros [?|[->|?]]; tauto.
    + unfold push. rewrite elem_of_app, list_elem_of_singleton. tauto.
Qed.

Lemma reserve_polled_elem pollData (ids : list Z) a s :
  a ∈ itemsInTrade
        (forEach ids
           (λ id s,
              forEach (itemsOf (bagOf pollData id))
                (λ item, setItemInTrade (TradeOfferItem.assetid item)) s) s)
  ↔ a ∈ itemsInTrade s
    ∨ a ∈ flat_map (λ id, map TradeOfferItem.assetid (itemsOf (bagOf pollData id))) ids.
Proof.
  revert s. induction ids as [|id ids IH]; intros s.
  - simpl. split; [by left|]. intros [?|Hin]; [done|]. by apply elem_of_nil in Hin.
  - rewrite forEach_cons, IH, reserve_all_elem. simpl. rewrite elem_of_app. tauto.
Qed.

Lemma reserve_polled_frame pollData (ids : list Z) s :
  pipeline
    (forEach ids
       (λ id s,
          forEach (itemsOf (bagOf pollData id))
            (λ item, setItemInTrade (TradeOfferItem.assetid item)) s) s)
  = pipeline s
  ∧ effects
      (forEach ids
         (λ id s,
            forEach (itemsOf (bagOf pollData id))
              (λ item, setItemInTrade (TradeOfferItem.assetid item)) s) s)
    = effects s.
Proof.
  split; apply forEach_preserves; intros id t; apply reserve_all_frame.
Qed.

Lemma reserve_polled_NoDup pollData (ids : list Z) s :
  NoDup (itemsInTrade s) →
  NoDup (itemsInTrade
           (forEach ids
              (λ id s,
                 forEach (itemsOf (bagOf pollData id))
                   (λ item, setItemInTrade (TradeOfferItem.assetid item)) s) s)).
Proof.
  apply (forEach_invariant (λ s, NoDup (itemsInTrade s))).
  intros id t. apply reserve_all_NoDup.
Qed.

(** X2.  After [setPollData] an asset id is reserved exactly when it was
    reserved before or is an item recorded for a sent offer that is
    active or needs confirmation, or for a received offer that is active.
    The queue, the processing flag and the pending operations are
    untouched, nothing is emitted, and the table of metadata bags is the
    one of the snapshot. *)
Theorem setPollData_reserves pollData s a :
  (a ∈ itemsInTrade (setPollData pollData s)
   ↔ a ∈ itemsInTrade s ∨ a ∈ polledAssets pollData)
  ∧ pipeline (setPollData pollData s) = pipeline s
  ∧ effects (setPollData pollData s) = effects s
  ∧ offerData (setPollData pollData s) = default ∅ (PollData.offerData pollData).
Proof.
  unfold setPollData, polledAssets. cbv zeta. split; [|split; [|split]].
  - simpl. apply reserve_polled_elem.
  - unfold pipeline. simpl.
    by destruct (reserve_polled_frame pollData
                   (activeOrCreatedNeedsConfirmation pollData) s) as [[= -> -> ->] _].
  - simpl. apply reserve_polled_frame.
  - done.
Qed.

(** X3.  In every state reached from the initial one no asset id is
    reserved twice, and [setPollData] keeps it so. *)
Theorem reserved_ids_are_unique interval evs s pollData :
  run evs (initial interval) = Some s →
  NoDup (itemsInTrade s) ∧ NoDup (itemsInTrade (setPollData pollData s)).
Proof.
  intros Hrun.
  assert (NoDup (itemsInTrade s)) as Hnd.
  { apply (run_reserved_NoDup evs (initial interval)); [constructor|done]. }
  split; [done|]. unfold setPollData. cbv zeta. simpl. by apply reserve_polled_NoDup.
Qed.

Lemma reserved_ids_are_unique_witness :
  NoDup (itemsInTrade afterTwoWaiting)
  ∧ NoDup (itemsInTrade (setPollData snapshot afterTwoWaiting)).
Proof.
  apply (reserved_ids_are_unique 30000 twoWaiting). vm_compute. reflexivity.
Defined.

(** The snapshot reserves the item of the sent offer that needs
    confirmation and not the item of the declined one. *)
Lemma setPollData_snapshot :
  itemsInTrade (setPollData snapshot (initial 30000)) = ["b7"].
Proof. vm_compute. reflexivity. Qed.

(** X4.  Only the notification of a new offer and the notification of a
    state change touch the reservations: every other transition (a
    sweep, the settling of a fetch, of a decision, of an action, of a
    refresh or of a confirmation) leaves the reservation array as it is.
    In particular finishing an offer releases nothing. *)
Theorem pipeline_keeps_reservations now e s s' :
  step now e s = Some s' → ¬ touchesReservations e →
  itemsInTrade s' = itemsInTrade s.
Proof.
  intros Hstep Hno. destruct e; simpl in Hno; try tauto; unfold step in Hstep.
  - apply (inj Some) in Hstep. subst s'. unfold onOfferList. cbv zeta.
    rewrite (forEach_preserves itemsInTrade) by (intros; apply enqueueOffer_items).
    by destruct (_ && _).
  - unfold settle in Hstep. case_decide; [|done]. apply (inj Some) in Hstep. subst s'.
    by rewrite fetchOfferCallback_items.
  - unfold settle in Hstep. case_decide; [|done]. apply (inj Some) in Hstep. subst s'.
    by rewrite decisionCallback_items.
  - unfold settle in Hstep. case_decide; [|done]. apply (inj Some) in Hstep. subst s'.
    by rewrite actionCallback_items.
  - unfold settle_detached in Hstep. case_decide; [|done].
    apply (inj Some) in Hstep. by subst s'.
  - unfold settle_detached in Hstep. case_decide; [|done].
    apply (inj Some) in Hstep. subst s'. unfold confirmationCallback. by destruct err.
Qed.

Lemma pipeline_keeps_reservations_witness :
  itemsInTrade fetchFailedOfTwo = itemsInTrade afterTwoWaiting.
Proof.
  apply (pipeline_keeps_reservations 9 (FetchSettled 2 (Rejected timeout))).
  - vm_compute. reflexivity.
  - simpl. tauto.
Defined.

(** ** More on the fetcher *)

Lemma getOfferCalls_retry offerId d r :
  getOfferCalls (andThen [GetOffer offerId; Delay d] r).2 = S (getOfferCalls r.2).
Proof. done. Qed.

Lemma getOfferCalls_refresh offerId f d r :
  getOfferCalls (andThen [GetOffer offerId; GetWebSession f; Delay d] r).2
  = S (getOfferCalls r.2).
Proof. done. Qed.

(** X5.  Whatever the Gateway answers, a fetch calls [getOffer] at least
    once and, counting the attempts it was started with, at most six
    times: a fetch started at attempt 0 makes at most six calls. *)
Theorem fetch_calls_bounded backoff gw offerId attempts k j :
  (1 ≤ getOfferCalls (fetchOffer backoff gw offerId attempts k j).2)%nat
  ∧ ((getOfferCalls (fetchOffer backoff gw offerId attempts k j).2 + attempts ≤ 6)%nat
     ∨ getOfferCalls (fetchOffer backoff gw offerId attempts k j).2 = 1%nat).
Proof.
  remember (6 - attempts)%nat as n eqn:Hn. revert attempts k j Hn.
  induction n as [n IH] using lt_wf_ind. intros attempts k j Hn.
  rewrite fetchOffer_body.
  destruct (getOffer gw k offerId) as [err|offer].
  2:{ case_decide; simpl; (split; [unfold getOfferCalls; simpl; lia | by right]). }
  destruct (decide (_ ∨ _));
    [simpl; (split; [unfold getOfferCalls; simpl; lia | by right])|].
  destruct (decide (5 < S attempts)%nat);
    [simpl; (split; [unfold getOfferCalls; simpl; lia | by right])|].
  destruct (decide (message err ≠ "Not Logged In")).
  - rewrite getOfferCalls_retry.
    destruct (IH (6 - S attempts)%nat ltac:(lia) (S attempts) (S k) j eq_refl)
      as [H1 [H2|H2]]; split; lia.
  - rewrite getOfferCalls_refresh.
    destruct (IH (6 - S attempts)%nat ltac:(lia) (S attempts) (S k) (S j) eq_refl)
      as [H1 [H2|H2]]; split; lia.
Qed.

(** X6.  What a fetch settles with is what the Gateway said: an offer it
    resolves is Active and is an answer of the Gateway; it resolves
    absent only on a not-found error or on an offer that is not Active;
    it is rejected only with an error of the Gateway that is not a
    not-found error, and only at the sixth attempt or later. *)
Theorem fetch_outcome_sound backoff gw offerId attempts k j :
  match (fetchOffer backoff gw offerId attempts k j).1 with
  | Resolved (Some offer) =>
      TradeOffer.state offer = Active
      ∧ ∃ k', (k ≤ k')%nat ∧ getOffer gw k' offerId = inr offer
  | Resolved None =>
      ∃ k', (k ≤ k')%nat
        ∧ ((∃ err, getOffer gw k' offerId = inl err
                   ∧ (message err = "NoMatch" ∨ message err = "No matching offer found"))
           ∨ (∃ offer, getOffer gw k' offerId = inr offer
                       ∧ TradeOffer.state offer ≠ Active))
  | Rejected err =>
      ∃ k', (k ≤ k')%nat ∧ getOffer gw k' offerId = inl err
        ∧ (5 ≤ attempts + (k' - k))%nat
        ∧ message err ≠ "NoMatch" ∧ message err ≠ "No matching offer found"
  end.
Proof.
  remember (6 - attempts)%nat as n eqn:Hn. revert attempts k j Hn.
  induction n as [n IH] using lt_wf_ind. intros attempts k j Hn.
  rewrite fetchOffer_body.
  destruct (getOffer gw k offerId) as [err|offer] eqn:Hget.
  2:{ case_decide as Hst; simpl.
      - exists k. split; [lia|]. right. by exists offer.
      - split; [by destruct (decide (TradeOffer.state offer = Active))|].
        exists k. split; [lia|done]. }
  destruct (decide (_ ∨ _)) as [Hnf|Hnf]; simpl.
  { exists k. split; [lia|]. left. by exists err. }
  destruct (decide (5 < S attempts)%nat); simpl.
  { exists k. repeat split; try done; try lia; intros ?; apply Hnf; auto. }
  assert (∀ j', match (fetchOffer backoff gw offerId (S attempts) (S k) j').1 with
    | Resolved (Some offer) =>
        TradeOffer.state offer = Active
        ∧ ∃ k', (k ≤ k')%nat ∧ getOffer gw k' offerId = inr offer
    | Resolved None =>
        ∃ k', (k ≤ k')%nat
          ∧ ((∃ err, getOffer gw k' offerId = inl err
                     ∧ (message err = "NoMatch" ∨ message err = "No matching offer found"))
             ∨ (∃ offer, getOffer gw k' offerId = inr offer
                         ∧ TradeOffer.state offer ≠ Active))
    | Rejected err =>
        ∃ k', (k ≤ k')%nat ∧ getOffer gw k' offerId = inl err
          ∧ (5 ≤ attempts + (k' - k))%nat
          ∧ message err ≠ "NoMatch" ∧ message err ≠ "No matching offer found"
    end) as Hrec.
  { intros j'.
    pose proof (IH (6 - S attempts)%nat ltac:(lia) (S attempts) (S k) j' eq_refl) as H.
    destruct (fetchOffer backoff gw offerId (S attempts) (S k) j').1 as [e|[o|]].
    - destruct H as (k' & ? & ? & ? & ? & ?). exists k'. repeat split; try done; lia.
    - destruct H as (? & k' & ? & ?). split; [done|]. exists k'. split; [lia|done].
    - destruct H as (k' & ? & ?). exists k'. split; [lia|done]. }
  destruct (decide (message err ≠ "Not Logged In")); simpl; apply Hrec.
Qed.

Section Vanishing.
Variables (backoff : nat → Z) (gw : Gateway) (offerId : Z) (N j : nat).
Hypothesis failures :
  ∀ i, (i < N)%nat → ∃ err, getOffer gw i offerId = inl err ∧ transient err.
Hypothesis few : (N ≤ 5)%nat.

Lemma fetch_vanishes_after d a :
  (a + d = N)%nat →
  (fetchOffer backoff gw offerId N N j).1 = Resolved None →
  getOfferCalls (fetchOffer backoff gw offerId N N j).2 = 1%nat →
  (fetchOffer backoff gw offerId a a j).1 = Resolved None
  ∧ getOfferCalls (fetchOffer backoff gw offerId a a j).2 = S d.
Proof.
  intros Ha Hres Hcalls. revert a Ha. induction d as [|d IH]; intros a Ha.
  - by replace a with N by lia.
  - destruct (failures a) as (err & Hget & Herr); [lia|].
    rewrite (fetchOffer_transient _ _ _ _ _ _ err) by done.
    destruct (decide (5 < S a)%nat); [lia|].
    destruct (IH (S a)) as [Hr Hc]; [lia|]. simpl. split; [done|].
    unfold getOfferCalls in *. simpl. by rewrite Hc.
Qed.

End Vanishing.

(** X7.  If the Gateway fails with a transient error N times, N ≤ 5, and
    then reports that the offer does not exist or returns it in a state
    that is not Active, the fetch resolves absent after exactly N+1
    calls; this holds for N = 5 too, since the not-found test comes
    before the test of the attempts. *)
Theorem fetch_absent_after_retries backoff gw offerId N j :
  (∀ i, (i < N)%nat → ∃ err, getOffer gw i offerId = inl err ∧ transient err) →
  (N ≤ 5)%nat →
  (∃ err, getOffer gw N offerId = inl err
          ∧ (message err = "NoMatch" ∨ message err = "No matching offer found"))
  ∨ (∃ offer, getOffer gw N offerId = inr offer ∧ TradeOffer.state offer ≠ Active) →
  (fetchOffer backoff gw offerId 0 0 j).1 = Resolved None
  ∧ getOfferCalls (fetchOffer backoff gw offerId 0 0 j).2 = S N.
Proof.
  intros Hfail HN Hlast.
  apply (fetch_vanishes_after backoff gw offerId N j Hfail HN N 0%nat); [lia| |].
  - rewrite fetchOffer_body.
    destruct Hlast as [(err & -> & Hmsg)|(offer & -> & Hst)].
    + by rewrite decide_True.
    + by rewrite decide_True.
  - rewrite fetchOffer_body.
    destruct Hlast as [(err & -> & Hmsg)|(offer & -> & Hst)].
    + by rewrite decide_True.
    + by rewrite decide_True.
Qed.

Lemma fetch_absent_after_retries_witness :
  (fetchOffer doubling (failsThenVanishes 5) 1 0 0 0).1 = Resolved None
  ∧ getOfferCalls (fetchOffer doubling (failsThenVanishes 5) 1 0 0 0).2 = 6%nat.
Proof.
  apply (fetch_absent_after_retries doubling (failsThenVanishes 5) 1 5 0).
  - intros i Hi. exists timeout. split.
    + simpl. destruct (Nat.ltb_spec i 5); [reflexivity|lia].
    + repeat split; discriminate.
  - lia.
  - left. exists (mkError "NoMatch" None). split; [reflexivity|]. left. reflexivity.
Defined.

(** ** Accepting with retries *)

Lemma acceptOfferRetry_body backoff gw offer attempts k j :
  acceptOfferRetry backoff gw offer attempts k j =
  match offerAccept gw k (TradeOffer.id offer) with
  | inr status => (AcceptResolved status, [OfferAccept (TradeOffer.id offer)])
  | inl err =>
      if decide (eresult err ≠ None ∨ (5 < S attempts)%nat)
      then (AcceptRejected err, [OfferAccept (TradeOffer.id offer)])
      else if decide (message err ≠ "Not Logged In") then
        thenAccept [OfferAccept (TradeOffer.id offer); Wait (backoff (S attempts))]
          (acceptOfferRetry backoff gw offer (S attempts) (S k) j)
      else
        thenAccept [OfferAccept (TradeOffer.id offer); RefreshSession true;
                    Wait (if decide (sessionRefresh gw j ≠ None) then 0
                          else backoff (S attempts))]
          (acceptOfferRetry backoff gw offer (S attempts) (S k) (S j))
  end.
Proof.
  simp acceptOfferRetry.
  destruct (offerAccept gw k (TradeOffer.id offer)) as [err|status]; simpl; [|done].
  destruct (decide (eresult err ≠ None ∨ _)); simpl; [done|].
  destruct (decide (message err ≠ "Not Logged In")); simpl; f_equal;
    by simp acceptOfferRetry.
Qed.

Lemma acceptOfferRetry_retried backoff gw offer attempts k j err :
  offerAccept gw k (TradeOffer.id offer) = inl err → retried err →
  acceptOfferRetry backoff gw offer attempts k j
  = if decide (5 < S attempts)%nat
    then (AcceptRejected err, [OfferAccept (TradeOffer.id offer)])
    else thenAccept [OfferAccept (TradeOffer.id offer); Wait (backoff (S attempts))]
           (acceptOfferRetry backoff gw offer (S attempts) (S k) j).
Proof.
  intros Hget [Hres Hmsg]. rewrite acceptOfferRetry_body, Hget.
  destruct (decide (5 < S attempts)%nat).
  - by rewrite decide_True by by right.
  - rewrite decide_False by (intros [?|?]; done).
    by rewrite decide_True.
Qed.

Section AcceptRetries.
Variables (backoff : nat → Z) (gw : Acceptor) (offer : TradeOffer.t) (N j : nat).
Hypothesis failures :
  ∀ i, (i < N)%nat → ∃ err, offerAccept gw i (TradeOffer.id offer) = inl err ∧ retried err.

(** The retries up to the [N]-th call, whatever that call settles with in
    one call. *)
Lemma accept_settles_after outcome d a :
  (a + d = N)%nat → (N ≤ 5)%nat →
  acceptOfferRetry backoff gw offer N N j
  = (outcome, [OfferAccept (TradeOffer.id offer)]) →
  (acceptOfferRetry backoff gw offer a a j).1 = outcome
  ∧ acceptCalls (acceptOfferRetry backoff gw offer a a j).2 = S d.
Proof.
  intros Ha HN Hlast. revert a Ha. induction d as [|d IH]; intros a Ha.
  - replace a with N by lia. by rewrite Hlast.
  - destruct (failures a) as (err & Hget & Herr); [lia|].
    rewrite (acceptOfferRetry_retried _ _ _ _ _ _ err) by done.
    destruct (decide (5 < S a)%nat); [lia|].
    destruct (IH (S a)) as [Hr Hc]; [lia|]. simpl. split; [done|].
    unfold acceptCalls in *. simpl. by rewrite Hc.
Qed.

Lemma accept_exhausts d a :
  (a + d = 5)%nat → (5 < N)%nat →
  ∃ err, offerAccept gw 5%nat (TradeOffer.id offer) = inl err
    ∧ (acceptOfferRetry backoff gw offer a a j).1 = AcceptRejected err
    ∧ acceptCalls (acceptOfferRetry backoff gw offer a a j).2 = S d.
Proof.
  revert a. induction d as [|d IH]; intros a Ha HN.
  - replace a with 5%nat by lia.
    destruct (failures 5%nat) as (err & Hget & Herr); [lia|]. exists err.
    rewrite (acceptOfferRetry_retried _ _ _ _ _ _ err) by done. done.
  - destruct (failures a) as (err & Hget & Herr); [lia|].
    rewrite (acceptOfferRetry_retried _ _ _ _ _ _ err) by done.
    destruct (decide (5 < S a)%nat); [lia|].
    destruct (IH (S a)) as (err' & Hget' & Hr & Hc); [lia..|]. exists err'.
    simpl. split; [done|]. split; [done|].
    unfold acceptCalls in *. simpl. by rewrite Hc.
Qed.

End AcceptRetries.

(** X8.  If [offer.accept] fails N times with an error that carries no
    result code and is not a session error, and then succeeds, an accept
    started at attempt 0 resolves the status of that call after exactly
    N+1 calls when N ≤ 5; when N > 5 it is rejected with the error of the
    sixth call after exactly 6 calls. *)
Theorem accept_retries backoff gw offer N j status :
  (∀ i, (i < N)%nat →
     ∃ err, offerAccept gw i (TradeOffer.id offer) = inl err ∧ retried err) →
  offerAccept gw N (TradeOffer.id offer) = inr status →
  ((N ≤ 5)%nat →
     (acceptOfferRetry backoff gw offer 0 0 j).1 = AcceptResolved status
     ∧ acceptCalls (acceptOfferRetry backoff gw offer 0 0 j).2 = S N)
  ∧ ((5 < N)%nat →
     ∃ err, offerAccept gw 5%nat (TradeOffer.id offer) = inl err
       ∧ (acceptOfferRetry backoff gw offer 0 0 j).1 = AcceptRejected err
       ∧ acceptCalls (acceptOfferRetry backoff gw offer 0 0 j).2 = 6%nat).
Proof.
  intros Hfail Hok. split; intros HN.
  - apply (accept_settles_after backoff gw offer N j Hfail _ N 0%nat); [lia|done|].
    by rewrite acceptOfferRetry_body, Hok.
  - by apply (accept_exhausts backoff gw offer N j Hfail 5%nat 0%nat).
Qed.

Lemma accept_retries_witness :
  ((3 ≤ 5)%nat →
     (acceptOfferRetry doubling (acceptsAfter 3) offer1 0 0 0).1 = AcceptResolved "accepted"
     ∧ acceptCalls (acceptOfferRetry doubling (acceptsAfter 3) offer1 0 0 0).2 = 4%nat)
  ∧ ((5 < 3)%nat →
     ∃ err, offerAccept (acceptsAfter 3) 5%nat (TradeOffer.id offer1) = inl err
       ∧ (acceptOfferRetry doubling (acceptsAfter 3) offer1 0 0 0).1 = AcceptRejected err
       ∧ acceptCalls (acceptOfferRetry doubling (acceptsAfter 3) offer1 0 0 0).2 = 6%nat).
Proof.
  apply (accept_retries doubling (acceptsAfter 3) offer1 3 0 "accepted").
  - intros i Hi. exists timeout. split.
    + simpl. destruct (Nat.ltb_spec i 3); [reflexivity|lia].
    + split; [reflexivity|discriminate].
  - reflexivity.
Defined.

(** X9.  An error of [offer.accept] that carries a result code of the
    protocol ends the accept at once: after N retried failures, N ≤ 5,
    the accept is rejected with that error after exactly N+1 calls, with
    no further call, refresh or wait, also when its message is the one
    of an expired session. *)
Theorem accept_protocol_rejection_is_final backoff gw offer N j err :
  (∀ i, (i < N)%nat →
     ∃ err, offerAccept gw i (TradeOffer.id offer) = inl err ∧ retried err) →
  (N ≤ 5)%nat →
  offerAccept gw N (TradeOffer.id offer) = inl err → eresult err ≠ None →
  acceptOfferRetry backoff gw offer N N j
  = (AcceptRejected err, [OfferAccept (TradeOffer.id offer)])
  ∧ (acceptOfferRetry backoff gw offer 0 0 j).1 = AcceptRejected err
  ∧ acceptCalls (acceptOfferRetry backoff gw offer 0 0 j).2 = S N.
Proof.
  intros Hfail HN Hget Hres.
  assert (acceptOfferRetry backoff gw offer N N j
          = (AcceptRejected err, [OfferAccept (TradeOffer.id offer)])) as Hlast.
  { rewrite acceptOfferRetry_body, Hget. by rewrite decide_True by by left. }
  split; [done|].
  by apply (accept_settles_after backoff gw offer N j Hfail _ N 0%nat); [lia|done|].
Qed.

Lemma accept_protocol_rejection_is_final_witness :
  acceptOfferRetry doubling turnedDown offer1 0 0 0
  = (AcceptRejected rejectedByProtocol, [OfferAccept (TradeOffer.id offer1)])
  ∧ (acceptOfferRetry doubling turnedDown offer1 0 0 0).1
    = AcceptRejected rejectedByProtocol
  ∧ acceptCalls (acceptOfferRetry doubling turnedDown offer1 0 0 0).2 = 1%nat.
Proof.
  apply (accept_protocol_rejection_is_final doubling turnedDown offer1 0 0).
  - intros i Hi. lia.
  - lia.
  - reflexivity.
  - discriminate.
Defined.

Lemma acceptCalls_retry offerId d r :
  acceptCalls (thenAccept [OfferAccept offerId; Wait d] r).2 = S (acceptCalls r.2).
Proof. done. Qed.

Lemma acceptCalls_refresh offerId f d r :
  acceptCalls (thenAccept [OfferAccept offerId; RefreshSession f; Wait d] r).2
  = S (acceptCalls r.2).
Proof. done. Qed.

(** X10.  Whatever the answers, an accept calls [offer.accept] at least
    once and, counting the attempts it was started with, at most six
    times; and what it settles with is an answer of [offer.accept]: the
    status it resolves, or the error it is rejected with, which carries a
    result code or came at the sixth attempt or later. *)
Theorem accept_bounded_and_sound backoff gw offer attempts k j :
  (1 ≤ acceptCalls (acceptOfferRetry backoff gw offer attempts k j).2)%nat
  ∧ ((acceptCalls (acceptOfferRetry backoff gw offer attempts k j).2 + attempts ≤ 6)%nat
     ∨ acceptCalls (acceptOfferRetry backoff gw offer attempts k j).2 = 1%nat)
  ∧ match (acceptOfferRetry backoff gw offer attempts k j).1 with
    | AcceptResolved status =>
        ∃ k', (k ≤ k')%nat ∧ offerAccept gw k' (TradeOffer.id offer) = inr status
    | AcceptRejected err =>
        ∃ k', (k ≤ k')%nat ∧ offerAccept gw k' (TradeOffer.id offer) = inl err
          ∧ (eresult err ≠ None ∨ (5 ≤ attempts + (k' - k))%nat)
    end.
Proof.
  remember (6 - attempts)%nat as n eqn:Hn. revert attempts k j Hn.
  induction n as [n IH] using lt_wf_ind. intros attempts k j Hn.
  rewrite acceptOfferRetry_body.
  destruct (offerAccept gw k (TradeOffer.id offer)) as [err|status] eqn:Hget.
  2:{ simpl. split; [unfold acceptCalls; simpl; lia|]. split; [by right|].
      exists k. split; [lia|done]. }
  destruct (decide (_ ∨ _)) as [Hfinal|Hgo]; simpl.
  { split; [unfold acceptCalls; simpl; lia|]. split; [by right|].
    exists k. split; [lia|]. split; [done|]. destruct Hfinal; [by left|right; lia]. }
  assert (∀ j',
    (1 ≤ S (acceptCalls (acceptOfferRetry backoff gw offer (S attempts) (S k) j').2))%nat
    ∧ ((S (acceptCalls (acceptOfferRetry backoff gw offer (S attempts) (S k) j').2)
        + attempts ≤ 6)%nat
       ∨ S (acceptCalls (acceptOfferRetry backoff gw offer (S attempts) (S k) j').2)
         = 1%nat)
    ∧ match (acceptOfferRetry backoff gw offer (S attempts) (S k) j').1 with
      | AcceptResolved status =>
          ∃ k', (k ≤ k')%nat ∧ offerAccept gw k' (TradeOffer.id offer) = inr status
      | AcceptRejected err =>
          ∃ k', (k ≤ k')%nat ∧ offerAccept gw k' (TradeOffer.id offer) = inl err
            ∧ (eresult err ≠ None ∨ (5 ≤ attempts + (k' - k))%nat)
      end) as Hrec.
  { intros j'.
    assert (attempts ≤ 4)%nat as Hle by (destruct (decide (5 < S attempts)%nat); [tauto|lia]).
    destruct (IH (6 - S attempts)%nat ltac:(lia) (S attempts) (S k) j' eq_refl)
      as (H1 & H2 & H3).
    split; [lia|]. split; [left; lia|].
    destruct (acceptOfferRetry backoff gw offer (S attempts) (S k) j').1 as [e|st].
    - destruct H3 as (k' & ? & ? & Hwhy). exists k'. split; [lia|]. split; [done|].
      destruct Hwhy; [by left|right; lia].
    - destruct H3 as (k' & ? & ?). exists k'. split; [lia|done]. }
  destruct (decide (message err ≠ "Not Logged In")).
  - rewrite acceptCalls_retry. apply Hrec.
  - rewrite acceptCalls_refresh. apply Hrec.
Qed.

(** X11.  After an error of an expired session that is retried,
    [acceptOfferRetry] forces a refresh of the session and calls
    [offer.accept] again with one more attempt; before that call it waits
    the backoff delay when the refresh succeeded and 0 when it failed. *)
Theorem accept_session_expired backoff gw offer attempts k j err :
  offerAccept gw k (TradeOffer.id offer) = inl err →
  message err = "Not Logged In" → eresult err = None → (attempts < 5)%nat →
  acceptOfferRetry backoff gw offer attempts k j
  = thenAccept [OfferAccept (TradeOffer.id offer); RefreshSession true;
                Wait (match sessionRefresh gw j with
                      | None => backoff (S attempts)
                      | Some _ => 0
                      end)]
      (acceptOfferRetry backoff gw offer (S attempts) (S k) (S j)).
Proof.
  intros Hget Hmsg Hres Hlt. rewrite acceptOfferRetry_body, Hget, Hmsg, Hres.
  rewrite decide_False by (intros [?|?]; [done|lia]).
  destruct (decide ("Not Logged In" ≠ "Not Logged In")); [done|].
  do 3 f_equal. by destruct (sessionRefresh gw j).
Qed.

Lemma accept_session_expired_witness :
  acceptOfferRetry doubling (expiredThenAccepts None) offer1 0 0 0
  = thenAccept [OfferAccept (TradeOffer.id offer1); RefreshSession true;
                Wait (match sessionRefresh (expiredThenAccepts None) 0 with
                      | None => doubling 1
                      | Some _ => 0
                      end)]
      (acceptOfferRetry doubling (expiredThenAccepts None) offer1 1 1 1).
Proof.
  apply (accept_session_expired doubling (expiredThenAccepts None) offer1 0 0 0
           notLoggedIn).
  - reflexivity.
  - reflexivity.
  - reflexivity.
  - lia.
Defined.

(** ** A pipeline that stalls *)

Lemma enqueueOffer_busy now offer s :
  processingOffer s = true → receivedOffers s ≠ [] →
  TradeOffer.id offer ∉ receivedOffers s →
  enqueueOffer now offer s
  = set_receivedOffers (push (TradeOffer.id offer) (receivedOffers s)) s.
Proof.
  intros Hp Hne Hout. rewrite enqueueOffer_later by done.
  apply processNextOffer_idle. by left.
Qed.

(** X12.  While an operation of the pipeline is pending, enqueueing an
    offer whose id is not queued only appends the id at the tail of the
    queue: nothing is emitted, nothing is started, the entries before it
    keep their order, and the offer waits for its turn. *)
Theorem enqueue_while_busy_appends interval evs s now offer :
  run evs (initial interval) = Some s →
  inFlight s ≠ [] → TradeOffer.id offer ∉ receivedOffers s →
  enqueueOffer now offer s
  = set_receivedOffers (receivedOffers s ++ [TradeOffer.id offer]) s.
Proof.
  intros Hrun Hbusy Hout.
  pose proof (run_consistent evs _ _ (consistent_initial interval) Hrun) as Hs.
  destruct Hs as (_ & _ & Hfl & _). destruct (Hfl Hbusy) as [Hp Hne].
  by apply enqueueOffer_busy.
Qed.

Lemma enqueue_while_busy_appends_witness :
  enqueueOffer 7 (inState Active offerMismatched) afterTwoWaiting
  = set_receivedOffers
      (receivedOffers afterTwoWaiting ++ [TradeOffer.id (inState Active offerMismatched)])
      afterTwoWaiting.
Proof.
  apply (enqueue_while_busy_appends 30000 twoWaiting).
  - vm_compute. reflexivity.
  - vm_compute. discriminate.
  - vm_compute. intros Hin. apply list_elem_of_In in Hin. simpl in Hin.
    destruct Hin as [H|[H|[]]]; discriminate H.
Defined.

Lemma step_decision_settled now offer start r s s' :
  consistent s → step now (DecisionSettled offer start r) s = Some s' →
  inFlight s = [HandlerDeciding offer start]
  ∧ s' = decisionCallback now offer start r (set_inFlight [] s).
Proof.
  intros Hs Hstep. unfold step in Hstep.
  destruct (settle _ s) as [s1|] eqn:Hs1; [|done].
  destruct (settle_inv _ _ _ Hs Hs1) as (Hf & -> & _).
  split; [done|].
  change (Some (decisionCallback now offer start r (set_inFlight [] s)) = Some s') in Hstep.
  by injection Hstep.
Qed.

Lemma step_action_settled now offer response start r s s' :
  consistent s → step now (ActionSettled offer response start r) s = Some s' →
  inFlight s = [ActingOnOffer offer response start]
  ∧ s' = actionCallback now offer response start r (set_inFlight [] s).
Proof.
  intros Hs Hstep. unfold step in Hstep.
  destruct (settle _ s) as [s1|] eqn:Hs1; [|done].
  destruct (settle_inv _ _ _ Hs Hs1) as (Hf & -> & _).
  split; [done|].
  change (Some (actionCallback now offer response start r (set_inFlight [] s)) = Some s')
    in Hstep.
  by injection Hstep.
Qed.

(** X13.  When the decision of the handler fails, or names an action
    that is neither accept nor decline, or when the action fails, the
    callback ends without finishing the offer: the processing flag stays
    set, nothing is pending, and the queue is as it was, with the offer
    still in it. *)
Theorem failure_stalls_the_pipeline now e s s' :
  consistent s → step now e s = Some s' →
  (∃ offer start err, e = DecisionSettled offer start (inl err))
  ∨ (∃ offer start response, e = DecisionSettled offer start (inr response)
       ∧ action response ≠ "accept" ∧ action response ≠ "decline")
  ∨ (∃ offer response start err, e = ActionSettled offer response start (inl err)) →
  stalled s' ∧ receivedOffers s' = receivedOffers s ∧ receivedOffers s' ≠ [].
Proof.
  intros Hs Hstep Hcase.
  assert (inFlight s ≠ [] → receivedOffers s ≠ [] ∧ processingOffer s = true) as Hbusy.
  { intros Hne. destruct Hs as (_ & _ & Hfl & _). destruct (Hfl Hne). done. }
  destruct Hcase as [(offer & start & err & ->)
                    |[(offer & start & response & -> & Hna & Hnd)
                     |(offer & response & start & err & ->)]].
  - destruct (step_decision_settled _ _ _ _ _ _ Hs Hstep) as (Hf & ->).
    destruct Hbusy as [Hne Hp]; [by rewrite Hf|]. by repeat split.
  - destruct (step_decision_settled _ _ _ _ _ _ Hs Hstep) as (Hf & ->).
    destruct Hbusy as [Hne Hp]; [by rewrite Hf|].
    unfold decisionCallback. cbv zeta.
    rewrite decide_False by done. rewrite decide_False by done. by repeat split.
  - destruct (step_action_settled _ _ _ _ _ _ _ Hs Hstep) as (Hf & ->).
    destruct Hbusy as [Hne Hp]; [by rewrite Hf|]. by repeat split.
Qed.

Lemma failure_stalls_the_pipeline_witness :
  stalled acceptFailed
  ∧ receivedOffers acceptFailed = receivedOffers whileAccepting
  ∧ receivedOffers acceptFailed ≠ [].
Proof.
  apply (failure_stalls_the_pipeline 4 (ActionSettled offer1 sayAccept 3 (inl timeout))
           whileAccepting acceptFailed).
  - apply (run_consistent acceptPending (initial 30000)).
    + apply consistent_initial.
    + vm_compute. reflexivity.
  - vm_compute. reflexivity.
  - right. right. exists offer1, sayAccept, 3, timeout. reflexivity.
Defined.

Lemma enqueueOffer_stalled now offer s :
  stalled s → receivedOffers s ≠ [] →
  stalled (enqueueOffer now offer s)
  ∧ ∃ more, receivedOffers (enqueueOffer now offer s) = receivedOffers s ++ more.
Proof.
  intros [Hp Hf] Hne.
  destruct (decide (TradeOffer.id offer ∈ receivedOffers s)) as [Hin|Hout].
  - rewrite enqueueOffer_present by done. split; [done|]. exists []. by rewrite app_nil_r.
  - rewrite enqueueOffer_busy by done. split; [done|]. by eexists.
Qed.

Lemma step_stalled now e s s' :
  stalled s → receivedOffers s ≠ [] → step now e s = Some s' →
  stalled s' ∧ ∃ more, receivedOffers s' = receivedOffers s ++ more.
Proof.
  intros Hst Hne Hstep.
  assert (∀ t, pipeline t = pipeline s →
            stalled t ∧ ∃ more, receivedOffers t = receivedOffers s ++ more) as Hsame.
  { intros t [= Hq Hp Hf]. unfold stalled. rewrite Hp, Hf, Hq.
    split; [done|]. exists []. by rewrite app_nil_r. }
  assert (∀ t, pipeline t = pipeline s → stalled t ∧ receivedOffers t ≠ []
            ∧ receivedOffers t = receivedOffers s) as Hsame'.
  { intros t [= Hq Hp Hf]. unfold stalled. by rewrite Hp, Hf, Hq. }
  destruct Hst as [Hp Hf].
  destruct e; unfold step in Hstep.
  - apply (inj Some) in Hstep. subst s'. unfold onNewOffer.
    destruct (TradeOffer.isGlitched offer); [by apply Hsame|]. cbv zeta.
    match goal with |- context [enqueueOffer now offer ?t] =>
      destruct (Hsame' t) as (Hst & Hne' & Hq) end.
    { unfold pipeline. simpl.
      by destruct (reserve_all_frame (TradeOffer.itemsToGive offer) EconItem.assetid
                     (emit (Log "info" MsgReceivedOffer) s)) as [[= -> -> ->] _]. }
    rewrite <- Hq. by apply enqueueOffer_stalled.
  - apply (inj Some) in Hstep. subst s'. unfold onOfferList. cbv zeta.
    apply (forEach_invariant
             (λ t, stalled t ∧ ∃ more, receivedOffers t = receivedOffers s ++ more)).
    + intros offer t [Hst (more & Hq)].
      destruct (enqueueOffer_stalled now offer t Hst) as [Hst' (more' & Hq')].
      { rewrite Hq. by destruct (receivedOffers s). }
      split; [done|]. exists (more ++ more'). by rewrite Hq', Hq, app_assoc.
    + apply Hsame. by destruct (_ && _).
  - apply (inj Some) in Hstep. subst s'. apply Hsame, onOfferChanged_pipeline.
  - unfold settle in Hstep. rewrite Hf in Hstep. by rewrite decide_False in Hstep
      by apply not_elem_of_nil.
  - unfold settle in Hstep. rewrite Hf in Hstep. by rewrite decide_False in Hstep
      by apply not_elem_of_nil.
  - unfold settle in Hstep. rewrite Hf in Hstep. by rewrite decide_False in Hstep
      by apply not_elem_of_nil.
  - unfold settle_detached in Hstep. case_decide; [|done].
    apply (inj Some) in Hstep. subst s'. by apply Hsame.
  - unfold settle_detached in Hstep. case_decide; [|done].
    apply (inj Some) in Hstep. subst s'. apply Hsame.
    unfold confirmationCallback. by destruct err.
Qed.

(** X14.  A stalled pipeline with a non-empty queue stays stalled: along
    every run of notifications and callbacks the processing flag stays
    set, no operation of the pipeline is ever pending again, and the
    queue only grows at its tail, so no queued offer is processed any
    more. *)
Theorem stalled_forever evs s s' :
  stalled s → receivedOffers s ≠ [] → run evs s = Some s' →
  stalled s' ∧ ∃ more, receivedOffers s' = receivedOffers s ++ more.
Proof.
  revert s. induction evs as [|[now e] evs IH]; intros s Hst Hne; simpl.
  - intros [= <-]. split; [done|]. exists []. by rewrite app_nil_r.
  - destruct (step now e s) as [s1|] eqn:Hstep; [|done]. intros Hrun.
    destruct (step_stalled now e s s1 Hst Hne Hstep) as [Hst1 (more1 & Hq1)].
    destruct (IH s1 Hst1) as [Hst' (more & Hq)]; [|done|].
    { rewrite Hq1. by destruct (receivedOffers s). }
    split; [done|]. exists (more1 ++ more). by rewrite Hq, Hq1, app_assoc.
Qed.

Lemma stalled_forever_witness :
  stalled stalledLater
  ∧ ∃ more, receivedOffers stalledLater = receivedOffers acceptFailed ++ more.
Proof.
  apply (stalled_forever afterStall acceptFailed).
  - vm_compute. split; reflexivity.
  - vm_compute. discriminate.
  - vm_compute. reflexivity.
Defined.

(** ** Intake and sweep *)

Lemma processNextOffer_offerData s : offerData (processNextOffer s) = offerData s.
Proof.
  destruct (processingOffer s) eqn:Hp.
  { by rewrite processNextOffer_idle by auto. }
  destruct (receivedOffers s) as [|offerId rest] eqn:Hq.
  { by rewrite processNextOffer_idle by auto. }
  by rewrite (processNextOffer_starts s offerId rest).
Qed.

Lemma processNextOffer_pollCount s : pollCount (processNextOffer s) = pollCount s.
Proof.
  destruct (processingOffer s) eqn:Hp.
  { by rewrite processNextOffer_idle by auto. }
  destruct (receivedOffers s) as [|offerId rest] eqn:Hq.
  { by rewrite processNextOffer_idle by auto. }
  by rewrite (processNextOffer_starts s offerId rest).
Qed.

Lemma enqueueOffer_pollCount now offer s : pollCount (enqueueOffer now offer s) = pollCount s.
Proof.
  unfold enqueueOffer. case_decide; [|done]. cbv zeta. case_decide; [done|].
  by rewrite processNextOffer_pollCount.
Qed.

Lemma enqueueOffer_data i key now offer s :
  key ≠ "handleTimestamp" →
  data_get i key (enqueueOffer now offer s) = data_get i key s.
Proof.
  intros Hkey. unfold enqueueOffer. case_decide; [|done]. cbv zeta. case_decide.
  - unfold handlerProcessOffer. cbv zeta.
    match goal with |- data_get i key (await _ (emit _ (data_set ?id ?k ?v ?t))) = _ =>
      transitivity (data_get i key (data_set id k v t)); [done|] end.
    by rewrite data_get_data_set_ne.
  - apply data_get_same. by rewrite processNextOffer_offerData.
Qed.

(** X15.  A new offer that is glitched is discarded: the reservations,
    the queue, the pending operations and the metadata are as before.
    For any other new offer, every item it gives is reserved under its
    asset id, the partner is recorded in the metadata of the offer, and
    the id of the offer is in the queue. *)
Theorem new_offer_intake now offer s :
  if TradeOffer.isGlitched offer then
    itemsInTrade (onNewOffer now offer s) = itemsInTrade s
    ∧ pipeline (onNewOffer now offer s) = pipeline s
    ∧ offerData (onNewOffer now offer s) = offerData s
  else
    (∀ item, item ∈ TradeOffer.itemsToGive offer →
       EconItem.assetid item ∈ itemsInTrade (onNewOffer now offer s))
    ∧ data_get (TradeOffer.id offer) "partner" (onNewOffer now offer s)
      = VStr (TradeOffer.partner offer)
    ∧ TradeOffer.id offer ∈ receivedOffers (onNewOffer now offer s).
Proof.
  unfold onNewOffer. destruct (TradeOffer.isGlitched offer); [done|].
  cbv zeta. split; [|split].
  - intros item Hitem. rewrite enqueueOffer_items. simpl.
    by apply (reserve_all_reserved _ EconItem.assetid).
  - rewrite enqueueOffer_data by discriminate. apply data_get_data_set_eq.
  - rewrite enqueueOffer_queue. case_decide; [done|].
    unfold push. apply elem_of_app. right. apply list_elem_of_here.
Qed.

Lemma enqueue_all_elem now (l : list TradeOffer.t) x s :
  x ∈ receivedOffers (forEach l (enqueueOffer now) s)
  ↔ x ∈ receivedOffers s ∨ x ∈ map TradeOffer.id l.
Proof.
  revert s. induction l as [|offer l IH]; intros s.
  - simpl. split; [by left|]. intros [?|Hin]; [done|]. by apply elem_of_nil in Hin.
  - rewrite forEach_cons, IH, enqueueOffer_queue. simpl. rewrite elem_of_cons.
    case_decide as Hin.
    + split; [tauto|]. intros [?|[->|?]]; tauto.
    + unfold push. rewrite elem_of_app, list_elem_of_singleton. tauto.
Qed.

Lemma filter_twice {A} (f g : A → bool) (l : list A) :
  List.filter g (List.filter f l) = List.filter (λ x, f x && g x) l.
Proof.
  induction l as [|x l IH]; [done|]. simpl.
  destruct (f x); simpl; [|done]. destruct (g x); by rewrite IH.
Qed.

Lemma onOfferList_queue now filter sent received s x :
  x ∈ receivedOffers (onOfferList now filter sent received s)
  ↔ x ∈ receivedOffers s ∨ x ∈ map TradeOffer.id (swept received s).
Proof.
  unfold onOfferList, swept. cbv zeta.
  rewrite enqueue_all_elem, filter_twice.
  assert (∀ t, offerData t = offerData s → receivedOffers t = receivedOffers s →
    (x ∈ receivedOffers t
     ∨ x ∈ map TradeOffer.id
           (List.filter
              (λ offer, hasState Active offer
                        && negb (bool_decide
                                   (data_get (TradeOffer.id offer) "handledByUs" t
                                    = VBool true))) received))
    ↔ (x ∈ receivedOffers s
       ∨ x ∈ map TradeOffer.id
             (List.filter
                (λ offer, hasState Active offer
                          && negb (bool_decide
                                     (data_get (TradeOffer.id offer) "handledByUs" s
                                      = VBool true))) received))) as Hsame.
  { intros t Hd ->. unfold data_get. by rewrite Hd. }
  apply Hsame; by destruct (_ && _).
Qed.

(** X16.  After a sweep, the queue holds the ids it held before and the
    ids of the received offers that are Active and not marked as handled,
    and no other id: sent offers, received offers in another state and
    handled offers are not enqueued.  The poll counter is one more than
    before, or 0 when the filter is ActiveOnly and the counter times the
    poll interval reached two minutes. *)
Theorem sweep_enqueues now filter sent received s x :
  (x ∈ receivedOffers (onOfferList now filter sent received s)
   ↔ x ∈ receivedOffers s ∨ x ∈ map TradeOffer.id (swept received s))
  ∧ pollCount (onOfferList now filter sent received s)
    = if bool_decide (filter = ActiveOnly)
         && bool_decide (2 * 60 * 1000 ≤ (pollCount s + 1) * pollInterval s)
      then 0 else pollCount s + 1.
Proof.
  split; [apply onOfferList_queue|].
  unfold onOfferList. cbv zeta.
  rewrite (forEach_preserves pollCount) by (intros; apply enqueueOffer_pollCount).
  simpl. by destruct (_ && _).
Qed.

(** ** Handled offers *)

Lemma handled_same i s s' : offerData s' = offerData s → handled i s → handled i s'.
Proof. unfold handled, data_get. by intros ->. Qed.

Lemma handled_data_set i offerId key v s :
  key ≠ "handledByUs" ∨ v = VBool true →
  handled i s → handled i (data_set offerId key v s).
Proof.
  unfold handled. intros Hwhy Hs.
  destruct (decide (key = "handledByUs")) as [->|Hkey].
  - destruct Hwhy as [?| ->]; [done|].
    destruct (decide (offerId = i)) as [->|Hid].
    + apply data_get_data_set_eq.
    + unfold data_get, data_set. simpl. rewrite lookup_insert_ne by done. apply Hs.
  - by rewrite data_get_data_set_ne.
Qed.

Lemma handled_emit i e s : handled i s → handled i (emit e s).
Proof. done. Qed.

Lemma handled_await i t s : handled i s → handled i (await t s).
Proof. done. Qed.

Lemma handled_spawn i b s : handled i s → handled i (spawn b s).
Proof. done. Qed.

Lemma handled_set_processingOffer i v s : handled i s → handled i (set_processingOffer v s).
Proof. done. Qed.

Lemma handled_set_receivedOffers i v s : handled i s → handled i (set_receivedOffers v s).
Proof. done. Qed.

Lemma handled_set_pollCount i v s : handled i s → handled i (set_pollCount v s).
Proof. done. Qed.

Lemma handled_set_inFlight i v s : handled i s → handled i (set_inFlight v s).
Proof. done. Qed.

Lemma handled_set_detached i v s : handled i s → handled i (set_detached v s).
Proof. done. Qed.

(** Reduces [handled] of a straight-line update to [handled] of the state
    it started from. *)
Ltac rehandle :=
  repeat first
    [ apply handled_emit
    | apply handled_await
    | apply handled_spawn
    | apply handled_set_processingOffer
    | apply handled_set_receivedOffers
    | apply handled_set_pollCount
    | apply handled_set_inFlight
    | apply handled_set_detached
    | apply handled_data_set; [first [left; discriminate | right; reflexivity]|] ].

Lemma processNextOffer_handled i s : handled i s → handled i (processNextOffer s).
Proof. apply handled_same, processNextOffer_offerData. Qed.

Lemma finishProcessingOffer_handled i offerId s :
  handled i s → handled i (finishProcessingOffer offerId s).
Proof.
  intros Hs. unfold finishProcessingOffer. cbv zeta.
  apply processNextOffer_handled. rehandle.
  apply (handled_same i s); [apply dequeueOffer_offerData|done].
Qed.

Lemma handlerProcessOffer_handled i now offer s :
  handled i s → handled i (handlerProcessOffer now offer s).
Proof. intros Hs. unfold handlerProcessOffer. cbv zeta. by rehandle. Qed.

Lemma enqueueOffer_handled i now offer s :
  handled i s → handled i (enqueueOffer now offer s).
Proof.
  intros Hs. unfold enqueueOffer. case_decide; [|done]. cbv zeta. case_decide.
  - apply handlerProcessOffer_handled. by rehandle.
  - apply processNextOffer_handled. by rehandle.
Qed.

Lemma fetchOfferCallback_handled i now offerId r s :
  handled i s → handled i (fetchOfferCallback now offerId r s).
Proof.
  intros Hs. unfold fetchOfferCallback. destruct r as [err|[offer|]]; cbv zeta.
  - apply finishProcessingOffer_handled. case_decide; by rehandle.
  - by apply handlerProcessOffer_handled.
  - by apply finishProcessingOffer_handled.
Qed.

Lemma decisionCallback_handled i now offer start r s :
  handled i s → handled i (decisionCallback now offer start r s).
Proof.
  intros Hs. unfold decisionCallback, acceptOffer, declineOffer.
  destruct r as [err|response]; cbv zeta; repeat case_decide; by rehandle.
Qed.

Lemma actionCallback_handled i now offer response start r s :
  handled i s → handled i (actionCallback now offer response start r s).
Proof.
  intros Hs. unfold actionCallback, acceptConfirmation.
  destruct r as [err|status]; cbv zeta; [by rehandle|].
  apply finishProcessingOffer_handled. repeat case_decide; by rehandle.
Qed.

Lemma onOfferChanged_handled i now offer oldState s :
  handled i s → handled i (onOfferChanged now offer oldState s).
Proof.
  intros Hs. unfold onOfferChanged. cbv zeta.
  set (s0 := emit _ s).
  assert (handled i s0) as H0 by (subst s0; by rehandle).
  assert (∀ t, handled i t →
            handled i (forEach (TradeOffer.itemsToGive offer)
                         (λ item, emit (InventoryRemoveItem (EconItem.assetid item))) t))
    as Hremove.
  { intros t Ht. apply (handled_same i t); [|done]. by apply (forEach_preserves offerData). }
  destruct (decide (_ ∨ _)).
  - assert (handled i (forEach (TradeOffer.itemsToGive offer)
                         (λ item, setItemInTrade (EconItem.id item)) s0)) as H1.
    { apply (handled_same i s0); [apply reserve_all_frame|done]. }
    destruct (_ && _); destruct (decide (_ ∧ _)); rehandle; try done;
      apply Hremove; by rehandle.
  - assert (handled i (forEach (TradeOffer.itemsToGive offer)
                         (λ item, unsetItemInTrade (EconItem.assetid item)) s0)) as H1.
    { apply (handled_same i s0); [apply release_all_frame|done]. }
    destruct (decide (_ ∧ _)); rehandle; try done; apply Hremove; by rehandle.
Qed.

Lemma step_handled i now e s s' : handled i s → step now e s = Some s' → handled i s'.
Proof.
  intros Hs Hstep. destruct e; unfold step in Hstep.
  - apply (inj Some) in Hstep. subst s'. unfold onNewOffer.
    destruct (TradeOffer.isGlitched offer); [by rehandle|]. cbv zeta.
    apply enqueueOffer_handled. rehandle.
    apply (handled_same i (emit (Log "info" MsgReceivedOffer) s));
      [apply reserve_all_frame|done].
  - apply (inj Some) in Hstep. subst s'. unfold onOfferList. cbv zeta.
    apply (forEach_invariant (handled i)); [intros; by apply enqueueOffer_handled|].
    destruct (_ && _); by rehandle.
  - apply (inj Some) in Hstep. subst s'. by apply onOfferChanged_handled.
  - unfold settle in Hstep. case_decide; [|done]. apply (inj Some) in Hstep. subst s'.
    by apply fetchOfferCallback_handled.
  - unfold settle in Hstep. case_decide; [|done]. apply (inj Some) in Hstep. subst s'.
    by apply decisionCallback_handled.
  - unfold settle in Hstep. case_decide; [|done]. apply (inj Some) in Hstep. subst s'.
    by apply actionCallback_handled.
  - unfold settle_detached in Hstep. case_decide; [|done].
    apply (inj Some) in Hstep. by subst s'.
  - unfold settle_detached in Hstep. case_decide; [|done].
    apply (inj Some) in Hstep. subst s'. unfold confirmationCallback. cbv zeta.
    destruct err; by rehandle.
Qed.

Lemma swept_not_handled i (received : list TradeOffer.t) s :
  handled i s → i ∉ map TradeOffer.id (swept received s).
Proof.
  intros Hs (offer & -> & Hin)%list_elem_of_fmap.
  unfold swept in Hin. apply list_elem_of_In, filter_In in Hin as [_ Hf].
  apply andb_true_iff in Hf as [_ Hf]. apply negb_true_iff in Hf.
  by apply bool_decide_eq_false in Hf.
Qed.

(** X17.  Once the class has marked an offer as handled, the mark stays
    along every run, and a sweep never enqueues that offer again: if its
    id is not in the queue before a sweep, it is not in the queue after
    it, whatever the sweep lists. *)
Theorem handled_offers_are_not_swept i evs s s' now filter sent received :
  handled i s → run evs s = Some s' →
  handled i s'
  ∧ (i ∉ receivedOffers s' →
     i ∉ receivedOffers (onOfferList now filter sent received s')).
Proof.
  intros Hs Hrun.
  assert (handled i s') as Hs'.
  { revert s Hs Hrun. induction evs as [|[t e] evs IH]; intros s Hs; simpl.
    - by intros [= <-].
    - destruct (step t e s) as [s1|] eqn:Hstep; [|done].
      apply IH. by apply (step_handled i t e s). }
  split; [done|]. intros Hout Hin.
  apply (onOfferList_queue now filter sent received s' i) in Hin as [Hin|Hin]; [done|].
  by apply (swept_not_handled i received s').
Qed.

(** X18.  When the decision of the handler is accept or decline, the
    callback marks the offer as handled, records the decision in its
    metadata, starts the action and leaves exactly that action pending;
    for accept the action is [acceptOfferRetry], for decline
    [offer.decline]. *)
Theorem decision_dispatches_action now offer start response s s' :
  consistent s →
  step now (DecisionSettled offer start (inr response)) s = Some s' →
  action response = "accept" ∨ action response = "decline" →
  handled (TradeOffer.id offer) s'
  ∧ data_get (TradeOffer.id offer) "action" s' = VResponse response
  ∧ inFlight s' = [ActingOnOffer offer response now]
  ∧ emitted s s'
    = [Log "debug" (MsgHandlerDone response);
       if decide (action response = "accept") then AcceptOfferRetry offer
       else OfferDecline offer]
  ∧ receivedOffers s' = receivedOffers s.
Proof.
  intros Hs Hstep Hact.
  destruct (step_decision_settled _ _ _ _ _ _ Hs Hstep) as (Hf & ->).
  unfold decisionCallback. cbv zeta.
  assert (∀ t, data_get (TradeOffer.id offer) "action"
                 (data_set (TradeOffer.id offer) "actionTimestamp" (VNum now)
                    (data_set (TradeOffer.id offer) "handledByUs" (VBool true)
                       (data_set (TradeOffer.id offer) "action" (VResponse response) t)))
               = VResponse response) as Haction.
  { intros t. rewrite !data_get_data_set_ne by discriminate. apply data_get_data_set_eq. }
  assert (∀ t, handled (TradeOffer.id offer)
                 (data_set (TradeOffer.id offer) "actionTimestamp" (VNum now)
                    (data_set (TradeOffer.id offer) "handledByUs" (VBool true) t)))
    as Hhandled.
  { intros t. unfold handled. rewrite data_get_data_set_ne by discriminate.
    apply data_get_data_set_eq. }
  destruct (decide (action response = "accept")) as [Ha|Ha].
  - unfold acceptOffer. cbv zeta. split; [apply Hhandled|]. split; [apply Haction|].
    split; [done|]. split; [|done]. apply emitted_list. simpl. by rewrite <- app_assoc.
  - destruct Hact as [?|Hd]; [done|]. rewrite decide_True by done.
    unfold declineOffer. cbv zeta. split; [apply Hhandled|]. split; [apply Haction|].
    split; [done|]. split; [|done]. apply emitted_list. simpl. by rewrite <- app_assoc.
Qed.

Lemma handled_offers_are_not_swept_witness :
  handled 1 acceptDone
  ∧ (1 ∉ receivedOffers acceptDone →
     1 ∉ receivedOffers (onOfferList 50 ActiveOnly [] [offer1] acceptDone)).
Proof.
  apply (handled_offers_are_not_swept 1 acceptSettles whileAccepting).
  - vm_compute. reflexivity.
  - vm_compute. reflexivity.
Defined.

Lemma decision_dispatches_action_witness :
  handled (TradeOffer.id offer1) whileAccepting
  ∧ data_get (TradeOffer.id offer1) "action" whileAccepting = VResponse sayAccept
  ∧ inFlight whileAccepting = [ActingOnOffer offer1 sayAccept 3]
  ∧ emitted whileDeciding whileAccepting
    = [Log "debug" (MsgHandlerDone sayAccept);
       if decide (action sayAccept = "accept") then AcceptOfferRetry offer1
       else OfferDecline offer1]
  ∧ receivedOffers whileAccepting = receivedOffers whileDeciding.
Proof.
  apply (decision_dispatches_action 3 offer1 0 sayAccept whileDeciding whileAccepting).
  - apply (run_consistent [(0, NewOffer offer1); (1, NewOffer offer2)] (initial 30000)).
    + apply consistent_initial.
    + vm_compute. reflexivity.
  - vm_compute. reflexivity.
  - left. reflexivity.
Defined.

(** ** Confirmation *)

Lemma finishProcessingOffer_detached offerId s :
  detached (finishProcessingOffer offerId s) = detached s.
Proof.
  unfold finishProcessingOffer. cbv zeta.
  set (t := set_processingOffer false (dequeueOffer offerId s)).
  assert (detached t = detached s) as <-.
  { subst t. unfold dequeueOffer. cbv zeta. by case_decide. }
  destruct (processingOffer t) eqn:Hp.
  { by rewrite processNextOffer_idle by auto. }
  destruct (receivedOffers t) as [|x rest] eqn:Hq.
  { by rewrite processNextOffer_idle by auto. }
  by rewrite (processNextOffer_starts t x rest).
Qed.

Lemma finishProcessingOffer_offerData offerId s :
  offerData (finishProcessingOffer offerId s) = offerData s.
Proof.
  unfold finishProcessingOffer. cbv zeta. rewrite processNextOffer_offerData. simpl.
  apply dequeueOffer_offerData.
Qed.

(** X19.  When an accept settles without error, the offer is finished
    whatever the status: its id is removed from the queue and the time
    the action took is recorded.  With the status pending the mobile
    confirmation is started detached, before the offer is finished; with
    any other status nothing is started. *)
Theorem pending_accept_confirms_detached now offer response start status s s' :
  consistent s →
  step now (ActionSettled offer response start (inr status)) s = Some s' →
  action response = "accept" →
  receivedOffers s' = removeFirst (TradeOffer.id offer) (receivedOffers s)
  ∧ data_get (TradeOffer.id offer) "actionTime" s' = VNum (now - start)
  ∧ detached s'
    = (if decide (status = "pending") then detached s ++ [Confirming offer now]
       else detached s)
  ∧ (status = "pending" →
     AcceptConfirmationForObject (TradeOffer.id offer) ∈ emitted s s').
Proof.
  intros Hs Hstep Hacc.
  destruct (step_action_settled _ _ _ _ _ _ _ Hs Hstep) as (Hf & ->).
  split; [by rewrite actionCallback_queue|].
  unfold actionCallback. cbv zeta. rewrite decide_True by done.
  split; [|split].
  - apply (eq_trans (data_get_same _ _ _ _ (finishProcessingOffer_offerData _ _))).
    case_decide.
    + unfold acceptConfirmation. cbv zeta.
      match goal with |- context [data_set ?i "actionTime" ?v ?t] =>
        transitivity (data_get i "actionTime"
          (data_set i "actedOnConfirmationTimestamp" (VNum now)
             (data_set i "actedOnConfirmation" (VBool true)
                (data_set i "actionTime" v t)))); [done|] end.
      rewrite !data_get_data_set_ne by discriminate. apply data_get_data_set_eq.
    + match goal with |- context [data_set ?i "actionTime" ?v ?t] =>
        transitivity (data_get i "actionTime" (data_set i "actionTime" v t)); [done|] end.
      apply data_get_data_set_eq.
  - rewrite finishProcessingOffer_detached. by case_decide.
  - intros ->. rewrite decide_True by done.
    match goal with |- _ ∈ emitted ?a (finishProcessingOffer ?i ?t) =>
      destruct (finishProcessingOffer_quiet i t) as (l & Hl & _) end.
    unfold emitted. rewrite Hl. simpl.
    rewrite <- !app_assoc. rewrite drop_app_length. simpl.
    do 2 apply list_elem_of_further. apply list_elem_of_here.
Qed.

Lemma pending_accept_confirms_detached_witness :
  receivedOffers acceptSettledPending
  = removeFirst (TradeOffer.id offer1) (receivedOffers whileAccepting)
  ∧ data_get (TradeOffer.id offer1) "actionTime" acceptSettledPending = VNum (4 - 3)
  ∧ detached acceptSettledPending
    = (if decide ("pending" = "pending")
       then detached whileAccepting ++ [Confirming offer1 4]
       else detached whileAccepting)
  ∧ ("pending" = "pending" →
     AcceptConfirmationForObject (TradeOffer.id offer1)
       ∈ emitted whileAccepting acceptSettledPending).
Proof.
  apply (pending_accept_confirms_detached 4 offer1 sayAccept 3 "pending"
           whileAccepting acceptSettledPending).
  - apply (run_consistent acceptPending (initial 30000)).
    + apply consistent_initial.
    + vm_compute. reflexivity.
  - vm_compute. reflexivity.
  - reflexivity.
Defined.

(** X20.  The settling of a confirmation, with or without error, only
    records the time it took and logs the error: the queue, the
    processing flag, the pending operations and the reservations are as
    before, so a failed confirmation does not undo the accept. *)
Theorem confirmation_settles_apart now offer start err s s' :
  step now (ConfirmationSettled offer start err) s = Some s' →
  pipeline s' = pipeline s
  ∧ itemsInTrade s' = itemsInTrade s
  ∧ data_get (TradeOffer.id offer) "confirmationTime" s' = VNum (now - start)
  ∧ emitted s s'
    = match err with
      | Some e => [Log "debug" (MsgConfirmationError e)]
      | None => []
      end.
Proof.
  unfold step, settle_detached. case_decide; [|done]. intros Hstep.
  apply (inj Some) in Hstep. subst s'. unfold confirmationCallback. cbv zeta.
  split; [by destruct err|]. split; [by destruct err|]. split.
  - destruct err.
    + match goal with |- context [data_set ?i "confirmationTime" ?v ?t] =>
        transitivity (data_get i "confirmationTime" (data_set i "confirmationTime" v t));
          [done|] end.
      apply data_get_data_set_eq.
    + apply data_get_data_set_eq.
  - apply emitted_list. destruct err; simpl; [done|]. by rewrite app_nil_r.
Qed.

Lemma confirmation_settles_apart_witness :
  pipeline confirmationFailed = pipeline acceptSettledPending
  ∧ itemsInTrade confirmationFailed = itemsInTrade acceptSettledPending
  ∧ data_get (TradeOffer.id offer1) "confirmationTime" confirmationFailed = VNum (8 - 4)
  ∧ emitted acceptSettledPending confirmationFailed
    = match Some timeout with
      | Some e => [Log "debug" (MsgConfirmationError e)]
      | None => []
      end.
Proof.
  apply (confirmation_settles_apart 8 offer1 4 (Some timeout)
           acceptSettledPending confirmationFailed).
  vm_compute. reflexivity.
Defined.

(** ** More on the state-change reactor *)

Lemma release_all_other {A} (l : list A) (f : A → string) a s :
  a ∉ map f l →
  a ∈ itemsInTrade (forEach l (λ x, unsetItemInTrade (f x)) s) ↔ a ∈ itemsInTrade s.
Proof.
  revert s. induction l as [|x l IH]; intros s Hout; [done|].
  simpl in Hout. apply not_elem_of_cons in Hout as [Hne Hout].
  rewrite forEach_cons, IH by done. rewrite unsetItemInTrade_items. split.
  - apply removeFirst_subset.
  - by apply removeFirst_other.
Qed.

Lemma onOfferChanged_detached_other now offer oldState s :
  TradeOffer.state offer ≠ Accepted → TradeOffer.state offer ≠ InEscrow →
  detached (onOfferChanged now offer oldState s) = detached s.
Proof.
  intros Hn1 Hn2. unfold onOfferChanged. cbv zeta.
  destruct (decide (_ ∧ _)) as [_|Hn]; [|by destruct Hn].
  destruct (decide (_ ∨ _)).
  - destruct (_ && _); simpl;
      by rewrite (forEach_preserves detached) by (intros; apply setItemInTrade_frame).
  - simpl.
    by rewrite (forEach_preserves detached) by (intros; apply unsetItemInTrade_frame).
Qed.

(** X21.  For a new state that is neither Accepted nor InEscrow the
    reactor reports the transition to the handler within the same
    callback, as its last effect and after log lines only: it touches no
    inventory, starts no refresh, and leaves the queue and the pending
    operations as they are. *)
Theorem other_transitions_are_reported now offer oldState s :
  TradeOffer.state offer ≠ Accepted → TradeOffer.state offer ≠ InEscrow →
  detached (onOfferChanged now offer oldState s) = detached s
  ∧ pipeline (onOfferChanged now offer oldState s) = pipeline s
  ∧ ∃ logs,
      emitted s (onOfferChanged now offer oldState s)
      = logs ++ [HandlerOnTradeOfferChanged offer oldState]
      ∧ Forall (λ e, ∃ level msg, e = Log level msg) logs.
Proof.
  intros Hn1 Hn2. split; [by apply onOfferChanged_detached_other|].
  split; [apply onOfferChanged_pipeline|].
  destruct (decide (activeFamily (TradeOffer.state offer))) as [Hact|Hact].
  - eexists [_]. split.
    + apply emitted_list. by rewrite onOfferChanged_effects_active.
    + apply Forall_cons. split; [by eexists _, _|apply Forall_nil_2].
  - eexists [_; _]. split.
    + apply emitted_list. rewrite onOfferChanged_effects_inactive by done. cbv zeta.
      by rewrite decide_True.
    + apply Forall_cons. split; [by eexists _, _|].
      apply Forall_cons. split; [by eexists _, _|apply Forall_nil_2].
Qed.

Lemma other_transitions_are_reported_witness :
  detached (onOfferChanged 20 (inState Declined offer1) Active afterTwoWaiting)
  = detached afterTwoWaiting
  ∧ pipeline (onOfferChanged 20 (inState Declined offer1) Active afterTwoWaiting)
    = pipeline afterTwoWaiting
  ∧ ∃ logs,
      emitted afterTwoWaiting
        (onOfferChanged 20 (inState Declined offer1) Active afterTwoWaiting)
      = logs ++ [HandlerOnTradeOfferChanged (inState Declined offer1) Active]
      ∧ Forall (λ e, ∃ level msg, e = Log level msg) logs.
Proof.
  apply (other_transitions_are_reported 20 (inState Declined offer1) Active afterTwoWaiting).
  - discriminate.
  - discriminate.
Defined.

(** X22.  A notification of a state change only touches the reservations
    of the items of its own offer: an asset id that is neither the id nor
    the asset id of an item the offer gives is reserved after the
    notification exactly when it was reserved before. *)
Theorem state_change_touches_own_items now offer oldState s a :
  a ∉ map EconItem.id (TradeOffer.itemsToGive offer) →
  a ∉ map EconItem.assetid (TradeOffer.itemsToGive offer) →
  a ∈ itemsInTrade (onOfferChanged now offer oldState s) ↔ a ∈ itemsInTrade s.
Proof.
  intros Hid Hasset.
  destruct (decide (activeFamily (TradeOffer.state offer))) as [Hact|Hact].
  - rewrite onOfferChanged_items_active by done. rewrite reserve_all_elem. tauto.
  - rewrite onOfferChanged_items_inactive by done. by apply release_all_other.
Qed.

Lemma state_change_touches_own_items_witness :
  "a1" ∈ itemsInTrade (onOfferChanged 20 (inState Declined offerMismatched) Active
                         afterTwoWaiting)
  ↔ "a1" ∈ itemsInTrade afterTwoWaiting.
Proof.
  apply (state_change_touches_own_items 20 (inState Declined offerMismatched) Active
           afterTwoWaiting "a1").
  - simpl. intros Hin. apply list_elem_of_In in Hin. simpl in Hin.
    destruct Hin as [H|[]]. discriminate H.
  - simpl. intros Hin. apply list_elem_of_In in Hin. simpl in Hin.
    destruct Hin as [H|[]]. discriminate H.
Defined.
